(** * The persistence layer of the embedded document store (NeDB)

    A shallow embedding of [lib/storage.js] (the crash-safe file
    operations) and of [lib/persistence.js] (construction-time validation,
    compaction, and the replay of a datafile into the in-memory state),
    followed by the properties of the persistence design that hold, or
    fail, on that code.

    Asynchronous functions are modelled in direct style: a function that
    takes a Node callback returns the invocation of that callback (or the
    exception that escaped before any invocation), and threads the state
    of the file system explicitly.  Where a function can invoke its
    callback more than once ([writeFileLines]), the successive
    invocations are kept, and the chain that consumes them
    ([async.waterfall]) is modelled on them.  The responses of the
    operating system (which call fails, and how) are inputs of the
    model. *)

From Stdlib Require Import Ascii QArith Qround.
From stdpp Require Import base option list strings gmap fin_maps pretty.

Set Warnings "-register-all".
Local Open Scope string_scope.
Local Open Scope list_scope.

(** * JavaScript values and errors *)

Module JS.

(** Error values.  [SysError code] is an error of the [fs] binding, read
    through [err.code]; [FlushError] is the
    [new Error('Failed to flush to storage')] of [flushToStorage] with its
    two fields [errorOnFsync] and [errorOnClose]; [TypeError] is what the
    runtime throws on a property read from [null] or [undefined];
    [Error msg] is [new Error(msg)]. *)
Inductive error : Type :=
  | SysError (code : string)
  | FlushError (errorOnFsync errorOnClose : option error)
  | TypeError
  | Error (message : string).

(** [err.code]: only errors of the [fs] binding carry one. *)
Definition code (e : error) : option string :=
  match e with
  | SysError c => Some c
  | _ => None
  end.

(** [err.code === c] *)
Definition code_is (e : error) (c : string) : bool :=
  match code e with
  | Some c' => String.eqb c' c
  | None => false
  end.

(** The completion of a piece of synchronous code: a value, or a thrown
    exception. *)
Inductive completion (A : Type) : Type :=
  | Normal (a : A)
  | Throw (e : error).
Arguments Normal {A} a.
Arguments Throw {A} e.

Definition bind {A B : Type} (c : completion A) (k : A -> completion B) : completion B :=
  match c with
  | Normal a => k a
  | Throw e => Throw e
  end.

(** The values a deserialized line can be: what [JSON.parse] yields, plus
    [undefined] for the reads of absent properties.  Numbers are kept as
    integers: the code only tests them for truthiness and uses them as
    property keys. *)
Inductive value : Type :=
  | Undefined
  | Null
  | Bool (b : bool)
  | Num (n : Z)
  | Str (s : string)
  | Arr (items : list value)
  | Obj (props : list (string * value)).

(** [if (v)]: the truthiness of a value. *)
Definition truthy (v : value) : bool :=
  match v with
  | Undefined | Null => false
  | Bool b => b
  | Num n => negb (Z.eqb n 0)
  | Str s => negb (String.eqb s "")
  | Arr _ | Obj _ => true
  end.

(** The own property [name] of an object literal (the first binding of the
    name; a parsed object has one binding per name). *)
Fixpoint own_property (props : list (string * value)) (name : string) : value :=
  match props with
  | [] => Undefined
  | (k, v) :: rest => if String.eqb k name then v else own_property rest name
  end.

(** [v.name] for the property names the persistence code reads ([_id],
    [$$deleted], [$$indexCreated], [fieldName], [$$indexRemoved]): a
    [TypeError] on [null] and [undefined], the own property of an object,
    [undefined] on primitives and arrays (none of these names is found on
    a prototype). *)
Definition get (v : value) (name : string) : completion value :=
  match v with
  | Undefined | Null => Throw TypeError
  | Obj props => Normal (own_property props name)
  | Bool _ | Num _ | Str _ | Arr _ => Normal Undefined
  end.

(** The line terminator, as a character and as a string. *)
Definition LF : Ascii.ascii := Ascii.ascii_of_nat 10.
Definition newline : string := String LF "".

(** [s.split(sep)] for a one-character separator: never empty. *)
Fixpoint split (sep : Ascii.ascii) (s : string) : list string :=
  match s with
  | EmptyString => [EmptyString]
  | String c rest =>
      if Ascii.eqb c sep then EmptyString :: split sep rest
      else match split sep rest with
           | [] => [String c EmptyString]
           | piece :: pieces => String c piece :: pieces
           end
  end.

(** [s.charAt(i)]: the character at [i] as a string, empty out of range. *)
Definition charAt (s : string) (i : Z) : string :=
  if (i <? 0)%Z then ""
  else match String.get (Z.to_nat i) s with
       | Some c => String c ""
       | None => ""
       end.

(** [Object.keys(o)] and [Object.values(o)] of an object used as a map.
    The enumeration order is the map's, not the insertion order of the
    engine: the properties below are about the set of entries. *)
Definition Object_keys {A : Type} (o : gmap string A) : list string := (map_to_list o).*1.
Definition Object_values {A : Type} (o : gmap string A) : list A := (map_to_list o).*2.

(** [o[k] = v] on an object created as [{}] and used as a map, as far
    as its own properties go.  The key [__proto__] reaches the setter
    that [{}] inherits from [Object.prototype]: the prototype of [o]
    changes and no property is created.  The prototype itself is not
    represented: [Object.values] and [Object.keys], the only reads made
    of these objects, see own properties only.  ([delete o[k]] removes
    an own property and needs no special case.) *)
Definition set_property {A : Type} (k : string) (v : A) (o : gmap string A) : gmap string A :=
  if String.eqb k "__proto__" then o else <[k := v]> o.

(** [v === true] *)
Definition is_true (v : value) : bool :=
  match v with
  | Bool true => true
  | _ => false
  end.

(** [v != null] (loose inequality: false for [null] and [undefined]). *)
Definition not_nullish (v : value) : bool :=
  match v with
  | Undefined | Null => false
  | _ => true
  end.

(** [s.includes('\n')] *)
Fixpoint has_newline (s : string) : bool :=
  match s with
  | EmptyString => false
  | String c rest => Ascii.eqb c LF || has_newline rest
  end.

(** [lines.join('\n')] *)
Definition join_lines (lines : list string) : string := String.concat newline lines.

(** [a || b] on numbers that may be [undefined]: zero is falsy. *)
Definition number_or (a : option Z) (b : Z) : Z :=
  match a with
  | Some n => if Z.eqb n 0 then b else n
  | None => b
  end.

End JS.

(** * [lib/storage.js] *)

Module Storage.
Import JS.

(** What an asynchronous function did with its Node callback: it invoked
    it once with [err] ([None] is [callback(null)]), or an exception
    escaped and the callback was never invoked. *)
Inductive outcome : Type :=
  | Callback (err : option error)
  | Uncaught (e : error).

(** The argument of [flushToStorage]: a bare file name, or an options
    object [{ filename, isDir }]. *)
Inductive flush_options : Type :=
  | FlushFile (filename : string)
  | FlushOpts (filename : string) (isDir : bool).

(** [options.isDir]: [undefined], hence falsy, when [options] is a string. *)
Definition isDir (o : flush_options) : bool :=
  match o with
  | FlushFile _ => false
  | FlushOpts _ d => d
  end.

Definition flush_filename (o : flush_options) : string :=
  match o with
  | FlushFile f => f
  | FlushOpts f _ => f
  end.

(** [flags] as computed at the top of [flushToStorage]. *)
Definition flush_flags (o : flush_options) : string :=
  match o with
  | FlushFile _ => "r+"
  | FlushOpts _ d => if d then "r" else "r+"
  end.

(** The system calls the storage layer issues, as they are journaled. *)
Inductive syscall : Type :=
  | SysAccess (path : string)
  | SysFlush (path flags : string)
  | SysWriteLines (path : string) (lines : list string)
  | SysWriteFile (path content : string)
  | SysRename (oldPath newPath : string).

(** The file system: the content of every existing file, and the journal
    of the calls made so far (oldest first). *)
Record world : Type := World {
  files : gmap string string;
  journal : list syscall
}.

Definition log (c : syscall) (w : world) : world :=
  World (files w) (journal w ++ [c]).

Definition set_files (fs : gmap string string) (w : world) : world :=
  World fs (journal w).

(** An asynchronous step over the file system. *)
Definition step : Type := world -> outcome * world.

(** The responses of the system to the three calls of one flush:
    [None] is success ([err] is [null]). *)
Record flush_io : Type := FlushIO {
  open_err : option error;
  fsync_err : option error;
  close_err : option error
}.

(** The response to [writeFileLines]: the stream writes every line and
    closes; or [fs.createWriteStream] throws [e] before anything is
    touched; or the stream fails with [e] (on opening the file or on a
    write), leaving at the path whatever the system chose ([None]: no
    file). *)
Inductive write_io : Type :=
  | WriteOk
  | WriteThrows (e : error)
  | WriteFails (remains : option string) (e : error).

(** [storage.exists]: [fs.access(path, F_OK, err => cb(!err))]. *)
Definition exists_ (path : string) (w : world) : bool * world :=
  (bool_decide (is_Some (files w !! path)), log (SysAccess path) w).

(** The body of the [fs.close] callback of [flushToStorage], given
    [errFS] and [errC]:
    [(errFS || errC) && !((errFS.code === 'EPERM' || errFS.code === 'EISDIR') && options.isDir)].
    When [errFS] is [null] and [errC] is not, [errFS.code] is a property
    read from [null]. *)
Definition flush_verdict (o : flush_options) (errFS errC : option error) : outcome :=
  if bool_decide (is_Some errFS) || bool_decide (is_Some errC) then
    match errFS with
    | None => Uncaught TypeError
    | Some eFS =>
        if negb ((code_is eFS "EPERM" || code_is eFS "EISDIR") && isDir o)
        then Callback (Some (FlushError errFS errC))
        else Callback None
    end
  else Callback None.

(** [storage.flushToStorage(options, callback)] *)
Definition flushToStorage (o : flush_options) (io : flush_io) : step := fun w =>
  let w := log (SysFlush (flush_filename o) (flush_flags o)) w in
  match open_err io with
  | Some err =>
      (Callback (if code_is err "EISDIR" && isDir o then None else Some err), w)
  | None => (flush_verdict o (fsync_err io) (close_err io), w)
  end.

(** The text [writeFileLines] leaves in the file: every line followed by
    a newline. *)
Definition file_text (lines : list string) : string :=
  fold_right (fun line rest => line +:+ newline +:+ rest) "" lines.

(** [storage.writeFileLines(filename, lines, callback)]: the arguments
    of the successive invocations of [callback], oldest first, and the
    file system they find.  [callback] is registered as the listener of
    the [error] event of the write stream and is also handed to
    [stream.close], which invokes it with no argument once the stream
    has closed.  A stream that fails emits [error] and then closes, so
    [callback] is invoked twice: with the error, then with none.  An
    exception thrown by [fs.createWriteStream] is caught and reported
    once. *)
Definition writeFileLines (filename : string) (lines : list string) (io : write_io)
    (w : world) : list (option error) * world :=
  let w := log (SysWriteLines filename lines) w in
  match io with
  | WriteOk => ([None], set_files (<[filename := file_text lines]> (files w)) w)
  | WriteThrows e => ([Some e], w)
  | WriteFails remains e =>
      ([Some e; None],
       set_files (match remains with
                  | Some s => <[filename := s]> (files w)
                  | None => delete filename (files w)
                  end) w)
  end.

(** [storage.writeFile(filename, content, 'utf8', callback)]: all or
    nothing. *)
Definition writeFile (filename content : string) (io : option error) : step := fun w =>
  let w := log (SysWriteFile filename content) w in
  match io with
  | Some e => (Callback (Some e), w)
  | None => (Callback None, set_files (<[filename := content]> (files w)) w)
  end.

(** [storage.rename(oldPath, newPath, callback)]: atomic; [ENOENT] when
    the source is missing. *)
Definition rename (oldPath newPath : string) (io : option error) : step := fun w =>
  let w := log (SysRename oldPath newPath) w in
  match io with
  | Some e => (Callback (Some e), w)
  | None =>
      match files w !! oldPath with
      | Some content =>
          (Callback None, set_files (<[newPath := content]> (delete oldPath (files w))) w)
      | None => (Callback (Some (SysError "ENOENT")), w)
      end
  end.

(** A task of a waterfall: what it does with the callback it is handed,
    in order of time: the invocations [Callback err] of that callback,
    and the exceptions [Uncaught e] that escape from its handlers. *)
Definition task : Type := world -> list outcome * world.

(** A task that is an asynchronous step. *)
Definition once (s : step) : task := fun w =>
  let '(result, w) := s w in ([result], w).

(** [async.waterfall(tasks, callback)], as in the release 0.2.10 of
    [async] that the package depends on.  Every task but the last is
    handed a wrapper: called with an error, the wrapper passes it to
    [callback] and replaces [callback] by a function that does nothing;
    called with none, it runs the next task.  The wrapper does not
    remember that it was called: a task that calls it again runs the
    rest of the chain again.  The last task is handed [callback]
    itself.  The result is what the caller observes, in order (the
    invocations of its callback and the exceptions that escaped),
    whether [callback] is still the caller's ([live]), and the file
    system at the end. *)
Fixpoint waterfall (tasks : list task) (live : bool) (w : world) {struct tasks}
  : list outcome * bool * world :=
  match tasks with
  | [] => (if live then [Callback None] else [], live, w)
  | task :: rest =>
      let '(events, w) := task w in
      fold_left
        (fun (state : list outcome * bool * world) event =>
           let '(seen, live, w) := state in
           match event with
           | Callback (Some e) =>
               (seen ++ (if live then [event] else []),
                match rest with [] => live | _ :: _ => false end, w)
           | Callback None =>
               let '(seen', live, w) := waterfall rest live w in
               (seen ++ seen', live, w)
           | Uncaught _ => (seen ++ [event], live, w)
           end)
        events ([], live, w)
  end.

(** What the caller of an asynchronous function observes first.  (Every
    function below calls back or lets an exception escape, so that the
    default is never taken.) *)
Definition first_event (seen : list outcome) : outcome :=
  match seen with
  | event :: _ => event
  | [] => Uncaught (Error "nothing observed")
  end.

(** A chain of steps each of which calls back once: they run in order,
    up to the first that does not succeed. *)
Fixpoint chain (steps : list step) : step := fun w =>
  match steps with
  | [] => (Callback None, w)
  | first :: rest =>
      match first w with
      | (Callback None, w) => chain rest w
      | failed => failed
      end
  end.

(** What is observed of a step that runs once the callback of the
    caller has been replaced: only the exception that escapes. *)
Definition escaped (result : outcome) : list outcome :=
  match result with
  | Uncaught _ => [result]
  | Callback _ => []
  end.

(** The responses of the system during one crash-safe rewrite, one per
    call in the order of the protocol. *)
Record rewrite_io : Type := RewriteIO {
  flush_dir_before : flush_io;
  flush_target : flush_io;
  write_temp : write_io;
  flush_temp : flush_io;
  rename_temp : option error;
  flush_dir_after : flush_io
}.

(** The responses during the startup integrity check. *)
Record integrity_io : Type := IntegrityIO {
  create_empty : option error;
  promote_temp : option error
}.

Section WithPath.

(** [path.dirname] of Node's [path] module. *)
Variable dirname : string -> string.

(** The chain of [storage.crashSafeWriteFileLines(filename, lines,
    callback)]: everything the caller observes, and the file system at
    the end. *)
Definition crashSafeWriteFileLines_events (filename : string) (lines : list string)
    (io : rewrite_io) (w : world) : list outcome * world :=
  let tempFilename := filename +:+ "~" in
  let '(seen, _, w) :=
    waterfall [
      once (flushToStorage (FlushOpts (dirname filename) true) (flush_dir_before io));
      once (fun w =>
              let '(found, w) := exists_ filename w in
              if found then flushToStorage (FlushFile filename) (flush_target io) w
              else (Callback None, w));
      (fun w =>
         let '(calls, w) := writeFileLines tempFilename lines (write_temp io) w in
         (map Callback calls, w));
      once (flushToStorage (FlushFile tempFilename) (flush_temp io));
      once (rename tempFilename filename (rename_temp io));
      once (flushToStorage (FlushOpts (dirname filename) true) (flush_dir_after io))
    ] true w in
  (seen, w).

(** [storage.crashSafeWriteFileLines(filename, lines, callback)]: what
    its caller observes first, and the file system once the chain has
    come to rest. *)
Definition crashSafeWriteFileLines (filename : string) (lines : list string)
    (io : rewrite_io) : step := fun w =>
  let '(seen, w) := crashSafeWriteFileLines_events filename lines io w in
  (first_event seen, w).

(** The steps of a rewrite before and after the write of the temp
    file. *)
Definition steps_before (filename : string) (io : rewrite_io) : list step :=
  [flushToStorage (FlushOpts (dirname filename) true) (flush_dir_before io);
   (fun w =>
      let '(found, w) := exists_ filename w in
      if found then flushToStorage (FlushFile filename) (flush_target io) w
      else (Callback None, w))].

Definition steps_after (filename : string) (io : rewrite_io) : list step :=
  [flushToStorage (FlushFile (filename +:+ "~")) (flush_temp io);
   rename (filename +:+ "~") filename (rename_temp io);
   flushToStorage (FlushOpts (dirname filename) true) (flush_dir_after io)].

(** The calls of a complete rewrite of [filename], in order, on a file
    system where [filename] exists or not. *)
Definition protocol (filename : string) (lines : list string) (target_exists : bool) : list syscall :=
  [SysFlush (dirname filename) "r"; SysAccess filename]
  ++ (if target_exists then [SysFlush filename "r+"] else [])
  ++ [SysWriteLines (filename +:+ "~") lines;
      SysFlush (filename +:+ "~") "r+";
      SysRename (filename +:+ "~") filename;
      SysFlush (dirname filename) "r"].

End WithPath.

(** [storage.ensureDatafileIntegrity(filename, callback)] *)
Definition ensureDatafileIntegrity (filename : string) (io : integrity_io) : step := fun w =>
  let tempFilename := filename +:+ "~" in
  let '(filenameExists, w) := exists_ filename w in
  if filenameExists then (Callback None, w)
  else
    let '(oldFilenameExists, w) := exists_ tempFilename w in
    if negb oldFilenameExists then writeFile filename "" (create_empty io) w
    else rename tempFilename filename (promote_temp io) w.

(** ** The other operations of the module *)

(** [storage.unlink(file, callback)]: all or nothing; [ENOENT] when the
    file is missing.  (The journal records the calls of the rewrite
    protocol only.) *)
Definition unlink (file : string) (io : option error) : step := fun w =>
  match io with
  | Some e => (Callback (Some e), w)
  | None =>
      match files w !! file with
      | Some _ => (Callback None, set_files (delete file (files w)) w)
      | None => (Callback (Some (SysError "ENOENT")), w)
      end
  end.

(** [storage.ensureFileDoesntExist(file, callback)] *)
Definition ensureFileDoesntExist (file : string) (io : option error) : step := fun w =>
  let '(found, w) := exists_ file w in
  if negb found then (Callback None, w)
  else unlink file io w.

(** The response to [appendFile]: it succeeds, or it fails with [e]
    after nothing was written and no file created ([None]), or after
    the first [n] characters were ([Some n]). *)
Inductive append_io : Type :=
  | AppendOk
  | AppendFails (written : option nat) (e : error).

(** [storage.appendFile(file, data, 'utf8', callback)]: the file is
    created when missing. *)
Definition appendFile (file data : string) (io : append_io) : step := fun w =>
  let old := default "" (files w !! file) in
  match io with
  | AppendOk => (Callback None, set_files (<[file := old +:+ data]> (files w)) w)
  | AppendFails None e => (Callback (Some e), w)
  | AppendFails (Some n) e =>
      (Callback (Some e), set_files (<[file := old +:+ String.substring 0 n data]> (files w)) w)
  end.

(** ** The vocabulary of the flush policy *)

(** The signatures under which a failed flush of a directory is
    reported as a success. *)
Definition open_unsupported (o : flush_options) (err : error) : Prop :=
  code err = Some "EISDIR" /\ isDir o = true.

Definition fsync_unsupported (o : flush_options) (errFS : error) : Prop :=
  (code errFS = Some "EPERM" \/ code errFS = Some "EISDIR") /\ isDir o = true.

End Storage.

(** * [lib/persistence.js] *)

Module Persistence.
Import JS Storage.

(** An index of the datastore, as [persistCachedDatabase] reads it. *)
Record index : Type := Index {
  unique : bool;
  sparse : bool
}.

(** The datastore [this.db], as far as the persistence layer uses it:
    its two configuration fields, [getAllData()], [indexes], and the
    events it has emitted so far (oldest first). *)
Module Datastore.
Record t : Type := Make {
  inMemoryOnly : bool;
  filename : option string;
  getAllData : list value;
  indexes : gmap string index;
  emitted : list string
}.

(** [db.emit(event)] *)
Definition emit (event : string) (db : t) : t :=
  Make (inMemoryOnly db) (filename db) (getAllData db) (indexes db) (emitted db ++ [event]).
End Datastore.

(** The [options] of the constructor.  A hook that is not supplied is
    [None] ([undefined], falsy). *)
Record options : Type := Options {
  opt_db : Datastore.t;
  opt_corruptAlertThreshold : option Q;
  opt_nodeWebkitAppName : option string;
  opt_afterSerialization : option (string -> string);
  opt_beforeDeserialization : option (string -> string)
}.

(** A constructed [Persistence] object.  The two hooks are taken as
    functions of their argument: a hook whose answer changes from one
    call to the next (one that draws a fresh nonce, say) is outside the
    model. *)
Record t : Type := Make {
  inMemoryOnly : bool;
  filename : option string;
  corruptAlertThreshold : Q;
  afterSerialization : string -> string;
  beforeDeserialization : string -> string
}.

(** [process.platform] and the environment variables read by
    [getNWAppFilename]. *)
Record process : Type := Process {
  platform : string;
  LOCALAPPDATA : option string;
  APPDATA : option string;
  HOME : option string
}.

(** Truthiness of a string that may be [null] or [undefined]. *)
Definition truthy_string (s : option string) : bool :=
  match s with
  | Some s => negb (String.eqb s "")
  | None => false
  end.

(** [a || b] on such strings. *)
Definition or_else (a b : option string) : option string :=
  if truthy_string a then a else b.

(** [if (!home) throw new Error(message)] *)
Definition require_home (home : option string) (message : string) : completion string :=
  match home with
  | Some h => if truthy_string home then Normal h else Throw (Error message)
  | None => Throw (Error message)
  end.

(** [this.filename.charAt(this.filename.length - 1) === '~'] *)
Definition last_char_is_tilde (filename : string) : bool :=
  String.eqb (charAt filename (Z.of_nat (String.length filename) - 1)) "~".

Definition reserved_suffix_message : string :=
  "The datafile name can't end with a ~, which is reserved for crash safe backup files".
Definition missing_deserialization_message : string :=
  "Serialization hook defined but deserialization hook undefined, cautiously refusing to start NeDB to prevent dataloss".
Definition missing_serialization_message : string :=
  "Serialization hook undefined but deserialization hook defined, cautiously refusing to start NeDB to prevent dataloss".
Definition not_inverse_message : string :=
  "beforeDeserialization is not the reverse of afterSerialization, cautiously refusing to start NeDB to prevent dataloss".

(** [if (cond) throw new Error(message)] *)
Definition throw_if (cond : bool) (message : string) : completion unit :=
  if cond then Throw (Error message) else Normal tt.

(** A [for] loop whose body may throw. *)
Fixpoint for_each {A : Type} (items : list A) (body : A -> completion unit) : completion unit :=
  match items with
  | [] => Normal tt
  | x :: rest => bind (body x) (fun _ => for_each rest body)
  end.

(** The result of [treatRawData] and of [treatRawStream]:
    [{ data, indexes }]. *)
Record treated : Type := Treated {
  data : list value;
  treated_indexes : gmap string value
}.

(** The state of a replay: the two objects used as maps and the counter
    of corrupt items. *)
Record replay : Type := Replay {
  dataById : gmap string value;
  indexes : gmap string value;
  corruptItems : Z
}.

(** The state of a streaming replay: the same, the number of lines seen,
    and the invocations of [cb] so far (oldest first). *)
Inductive cb_call : Type :=
  | CbError (err : error)
  | CbResult (result : treated).

Record stream_replay : Type := StreamReplay {
  sDataById : gmap string value;
  sIndexes : gmap string value;
  sCorruptItems : Z;
  sLength : nat;
  sCalls : list cb_call
}.

(** The events of a line stream. *)
Inductive event : Type :=
  | OnData (line : string)
  | OnEnd
  | OnError (err : error).

(** A raw stream: the whole text of the file, or a read that fails after
    some lines. *)
Inductive raw_stream : Type :=
  | StreamOf (text : string)
  | StreamFailing (lines : list string) (err : error).

(** Modelled from the spec: the line stream [byline(rawStream,
    { keepEmptyLines: true })] of [lib/byline.js], which is not part of
    the sources at hand.  It delivers the lines of the content, in
    order and empty ones included, as [data] events, then one [end]
    event; a failing stream delivers one [error] event instead. *)
Definition byline (rawStream : raw_stream) : list event :=
  match rawStream with
  | StreamOf text => map OnData (split LF text) ++ [OnEnd]
  | StreamFailing lines err => map OnData lines ++ [OnError err]
  end.

(** [x > y] on rationals. *)
Definition Qgt_bool (x y : Q) : bool := negb (Qle_bool x y).

(** The message of the data-integrity error:
    [`More than ${Math.floor(100 * threshold)}% of the data file is corrupt, ...`]. *)
Definition corrupt_message (threshold : Q) : string :=
  "More than " +:+ pretty (Qfloor (100 * threshold)) +:+
  "% of the data file is corrupt, the wrong beforeDeserialization hook may be used. Cautiously refusing to start NeDB to prevent dataloss".

Section WithEnvironment.

(** What the persistence layer takes from modules that are not part of
    the sources at hand: [path.dirname] and [path.join] of Node,
    [customUtils.uid] (the string returned by the call [uid(len)] made in
    iteration [(len, j)] of the probe loop), [model.serialize] and
    [model.deserialize], and the conversion of a value that is not a
    string into a property key (number formatting, [toString] of objects
    and arrays, which can throw). *)
Variable dirname : string -> string.
Variable path_join : list string -> string.
Variable uid : nat -> nat -> string.
Variable serialize : value -> string.
Variable deserialize : string -> completion value.
Variable key_of_nonstring : value -> completion string.

(** [Persistence.getNWAppFilename(appName, relativeFilename)] *)
Definition getNWAppFilename (proc : process) (appName relativeFilename : string) : completion string :=
  bind
    (if String.eqb (platform proc) "win32" || String.eqb (platform proc) "win64" then
       bind (require_home (or_else (LOCALAPPDATA proc) (APPDATA proc))
                          "Couldn't find the base application data folder") (fun home =>
       Normal (path_join [home; appName]))
     else if String.eqb (platform proc) "darwin" then
       bind (require_home (HOME proc)
                          "Couldn't find the base application data directory") (fun home =>
       Normal (path_join [home; "Library"; "Application Support"; appName]))
     else if String.eqb (platform proc) "linux" then
       bind (require_home (HOME proc)
                          "Couldn't find the base application data directory") (fun home =>
       Normal (path_join [home; ".config"; appName]))
     else Throw (Error ("Can't use the Node Webkit relative path for platform " +:+ platform proc)))
    (fun home => Normal (path_join [home; "nedb-data"; relativeFilename])).

(** The probe of the two hooks: for [i] from 1 to 29 and [j] from 0 to 9,
    a random string of length [i] must survive
    [beforeDeserialization(afterSerialization(s))]. *)
Definition probe_hooks (after before : string -> string) : completion unit :=
  for_each (seq 1 29) (fun i =>
    for_each (seq 0 10) (fun j =>
      let randomString := uid i j in
      throw_if (negb (String.eqb (before (after randomString)) randomString))
               not_inverse_message)).

(** [new Persistence(options)].  The warning printed on the console for
    [nodeWebkitAppName] is not modelled. *)
Definition constructor (proc : process) (o : options) : completion t :=
  let db := opt_db o in
  let inMemoryOnly := Datastore.inMemoryOnly db in
  let filename := Datastore.filename db in
  let corruptAlertThreshold :=
    match opt_corruptAlertThreshold o with
    | Some threshold => threshold
    | None => 1 # 10
    end in
  bind (throw_if (negb inMemoryOnly &&
                  truthy_string filename &&
                  match filename with
                  | Some f => last_char_is_tilde f
                  | None => false
                  end)
                 reserved_suffix_message) (fun _ =>
  bind (throw_if (bool_decide (is_Some (opt_afterSerialization o)) &&
                  negb (bool_decide (is_Some (opt_beforeDeserialization o))))
                 missing_deserialization_message) (fun _ =>
  bind (throw_if (negb (bool_decide (is_Some (opt_afterSerialization o))) &&
                  bool_decide (is_Some (opt_beforeDeserialization o)))
                 missing_serialization_message) (fun _ =>
  let afterSerialization := default (fun s => s) (opt_afterSerialization o) in
  let beforeDeserialization := default (fun s => s) (opt_beforeDeserialization o) in
  bind (probe_hooks afterSerialization beforeDeserialization) (fun _ =>
  bind (match filename, opt_nodeWebkitAppName o with
        | Some f, Some appName =>
            if truthy_string filename && truthy_string (Some appName)
            then bind (getNWAppFilename proc appName f) (fun f' => Normal (Some f'))
            else Normal filename
        | _, _ => Normal filename
        end) (fun filename =>
  Normal (Make inMemoryOnly filename corruptAlertThreshold
               afterSerialization beforeDeserialization)))))).

(** The document [{ $$indexCreated: { fieldName, unique, sparse } }]. *)
Definition indexCreated_doc (fieldName : string) (ix : index) : value :=
  Obj [("$$indexCreated",
        Obj [("fieldName", Str fieldName);
             ("unique", Bool (unique ix));
             ("sparse", Bool (sparse ix))])].

(** The [lines] array built by [persistCachedDatabase]. *)
Definition compaction_lines (p : t) (db : Datastore.t) : list string :=
  map (fun doc => afterSerialization p (serialize doc)) (Datastore.getAllData db)
  ++ map (fun fieldName =>
            afterSerialization p
              (serialize (indexCreated_doc fieldName
                            (default (Index false false) (Datastore.indexes db !! fieldName)))))
         (filter (fun fieldName => fieldName <> "_id") (Object_keys (Datastore.indexes db))).

(** [persistCachedDatabase(callback)].  With no file name in durable
    mode, [path.dirname(null)] throws before any step runs. *)
Definition persistCachedDatabase (p : t) (io : rewrite_io) (db : Datastore.t) (w : world)
  : outcome * Datastore.t * world :=
  if inMemoryOnly p then (Callback None, db, w)
  else
    let lines := compaction_lines p db in
    match filename p with
    | None => (Uncaught TypeError, db, w)
    | Some f =>
        match crashSafeWriteFileLines dirname f lines io w with
        | (Callback None, w') => (Callback None, Datastore.emit "compaction.done" db, w')
        | (failed, w') => (failed, db, w')
        end
    end.

(** The property key a value used as [o[v]] stands for. *)
Definition ToPropertyKey (v : value) : completion string :=
  match v with
  | Str s => Normal s
  | _ => key_of_nonstring v
  end.

(** The body of the [try] block of [treatRawData]: the two maps after
    the line, or the exception thrown. *)
Definition try_datum (p : t) (dataById indexes : gmap string value) (datum : string)
  : completion (gmap string value * gmap string value) :=
  bind (deserialize (beforeDeserialization p datum)) (fun doc =>
  bind (get doc "_id") (fun id =>
  if truthy id then
    bind (get doc "$$deleted") (fun deleted =>
    if is_true deleted
    then bind (ToPropertyKey id) (fun k => Normal (delete k dataById, indexes))
    else bind (ToPropertyKey id) (fun k => Normal (set_property k doc dataById, indexes)))
  else
    bind (get doc "$$indexCreated") (fun indexCreated =>
    bind (if truthy indexCreated
          then bind (get indexCreated "fieldName") (fun fieldName => Normal (not_nullish fieldName))
          else Normal false) (fun created =>
    if created then
      bind (get indexCreated "fieldName") (fun fieldName =>
      bind (ToPropertyKey fieldName) (fun k =>
      Normal (dataById, set_property k indexCreated indexes)))
    else
      bind (get doc "$$indexRemoved") (fun indexRemoved =>
      match indexRemoved with
      | Str field => Normal (dataById, delete field indexes)
      | _ => Normal (dataById, indexes)
      end))))).

(** One iteration of the loop of [treatRawData]. *)
Definition treat_datum (p : t) (st : replay) (datum : string) : replay :=
  match try_datum p (dataById st) (indexes st) datum with
  | Normal (dataById', indexes') => Replay dataById' indexes' (corruptItems st)
  | Throw _ => Replay (dataById st) (indexes st) (corruptItems st + 1)
  end.

(** The state at the start of a replay: the corrupt counter starts at -1. *)
Definition replay_start : replay := Replay ∅ ∅ (-1).

(** [treatRawData(rawData)] *)
Definition treatRawData (p : t) (rawData : string) : completion treated :=
  let data := split LF rawData in
  let st := fold_left (treat_datum p) data replay_start in
  if (0 <? length data)%nat &&
     Qgt_bool (inject_Z (corruptItems st) / inject_Z (Z.of_nat (length data)))
              (corruptAlertThreshold p)
  then Throw (Error (corrupt_message (corruptAlertThreshold p)))
  else Normal (Treated (Object_values (dataById st)) (indexes st)).

(** The handler of [data] events of [treatRawStream]. *)
Definition on_data (p : t) (st : stream_replay) (line : string) : stream_replay :=
  let attempt :=
    bind (deserialize (beforeDeserialization p line)) (fun doc =>
    bind (get doc "_id") (fun id =>
    if truthy id then
      bind (get doc "$$deleted") (fun deleted =>
      if is_true deleted
      then bind (ToPropertyKey id) (fun k => Normal (delete k (sDataById st), sIndexes st))
      else bind (ToPropertyKey id) (fun k =>
           Normal (set_property k doc (sDataById st), sIndexes st)))
    else
      bind (get doc "$$indexCreated") (fun indexCreated =>
      bind (if truthy indexCreated
            then bind (get indexCreated "fieldName") (fun fieldName => Normal (not_nullish fieldName))
            else Normal false) (fun created =>
      if created then
        bind (get indexCreated "fieldName") (fun fieldName =>
        bind (ToPropertyKey fieldName) (fun k =>
        Normal (sDataById st, set_property k indexCreated (sIndexes st))))
      else
        bind (get doc "$$indexRemoved") (fun indexRemoved =>
        match indexRemoved with
        | Str field => Normal (sDataById st, delete field (sIndexes st))
        | _ => Normal (sDataById st, sIndexes st)
        end))))) in
  match attempt with
  | Normal (dataById', indexes') =>
      StreamReplay dataById' indexes' (sCorruptItems st) (S (sLength st)) (sCalls st)
  | Throw _ =>
      StreamReplay (sDataById st) (sIndexes st) (sCorruptItems st + 1) (S (sLength st)) (sCalls st)
  end.

(** [cb(...)] *)
Definition call (c : cb_call) (st : stream_replay) : stream_replay :=
  StreamReplay (sDataById st) (sIndexes st) (sCorruptItems st) (sLength st) (sCalls st ++ [c]).

(** The handler of the [end] event. *)
Definition on_end (p : t) (st : stream_replay) : stream_replay :=
  if (0 <? sLength st)%nat &&
     Qgt_bool (inject_Z (sCorruptItems st) / inject_Z (Z.of_nat (sLength st)))
              (corruptAlertThreshold p)
  then call (CbError (Error (corrupt_message (corruptAlertThreshold p)))) st
  else call (CbResult (Treated (Object_values (sDataById st)) (sIndexes st))) st.

(** The handler of the [error] event. *)
Definition on_error (err : error) (st : stream_replay) : stream_replay :=
  call (CbError err) st.

Definition handle (p : t) (st : stream_replay) (ev : event) : stream_replay :=
  match ev with
  | OnData line => on_data p st line
  | OnEnd => on_end p st
  | OnError err => on_error err st
  end.

Definition stream_start : stream_replay := StreamReplay ∅ ∅ (-1) 0 [].

(** [treatRawStream(rawStream, cb)]: the invocations of [cb]. *)
Definition treatRawStream (p : t) (rawStream : raw_stream) : list cb_call :=
  sCalls (fold_left (handle p) (byline rawStream) stream_start).

(** ** The vocabulary of the properties *)

(** The name ends in the suffix reserved for the temp file. *)
Definition ends_with_reserved_suffix (name : string) : Prop :=
  exists stem, name = stem +:+ "~".

(** Exactly one of the two hooks is supplied. *)
Definition unpaired_hooks (o : options) : Prop :=
  (is_Some (opt_afterSerialization o) /\ opt_beforeDeserialization o = None) \/
  (opt_afterSerialization o = None /\ is_Some (opt_beforeDeserialization o)).

(** Some string drawn by the probe does not survive the round trip
    through the hooks in use. *)
Definition probe_fails (o : options) : Prop :=
  exists i j, (1 <= i < 30)%nat /\ (j < 10)%nat /\
    default (fun s => s) (opt_beforeDeserialization o)
      (default (fun s => s) (opt_afterSerialization o) (uid i j)) <> uid i j.

(** What a line does to the two maps. *)
Inductive effect : Type :=
  | SetRecord (k : string) (doc : value)
  | DeleteRecord (k : string)
  | SetIndex (k : string) (spec : value)
  | DeleteIndex (k : string)
  | NoEffect.

Definition apply_effect (e : effect) (dataById indexes : gmap string value)
  : gmap string value * gmap string value :=
  match e with
  | SetRecord k doc => (set_property k doc dataById, indexes)
  | DeleteRecord k => (delete k dataById, indexes)
  | SetIndex k spec => (dataById, set_property k spec indexes)
  | DeleteIndex k => (dataById, delete k indexes)
  | NoEffect => (dataById, indexes)
  end.

(** [doc.$$deleted === true] *)
Definition deleted_flag (doc : value) : bool :=
  match get doc "$$deleted" with
  | Normal deleted => is_true deleted
  | Throw _ => false
  end.

(** [doc.$$indexCreated && doc.$$indexCreated.fieldName != null] *)
Definition creation_guard (doc : value) : bool :=
  match get doc "$$indexCreated" with
  | Normal indexCreated =>
      truthy indexCreated &&
      match get indexCreated "fieldName" with
      | Normal fieldName => not_nullish fieldName
      | Throw _ => false
      end
  | Throw _ => false
  end.

(** The effect of a line, read off the document it deserializes to. *)
Definition line_effect (p : t) (line : string) : completion effect :=
  bind (deserialize (beforeDeserialization p line)) (fun doc =>
  bind (get doc "_id") (fun id =>
  if truthy id then
    bind (ToPropertyKey id) (fun k =>
    Normal (if deleted_flag doc then DeleteRecord k else SetRecord k doc))
  else if creation_guard doc then
    bind (get doc "$$indexCreated") (fun indexCreated =>
    bind (get indexCreated "fieldName") (fun fieldName =>
    bind (ToPropertyKey fieldName) (fun k => Normal (SetIndex k indexCreated))))
  else
    bind (get doc "$$indexRemoved") (fun indexRemoved =>
    Normal match indexRemoved with
           | Str field => DeleteIndex field
           | _ => NoEffect
           end))).

(** The line deserializes to [doc], whose truthy [_id] stands for the
    property key [k]. *)
Definition identified_line (p : t) (line : string) (doc : value) (k : string) : Prop :=
  deserialize (beforeDeserialization p line) = Normal doc /\
  exists id, get doc "_id" = Normal id /\ truthy id = true /\ ToPropertyKey id = Normal k.

(** The line deserializes to [doc], whose [_id] is absent or falsy. *)
Definition unidentified_line (p : t) (line : string) (doc : value) : Prop :=
  deserialize (beforeDeserialization p line) = Normal doc /\
  exists id, get doc "_id" = Normal id /\ truthy id = false.

(** A primary-record line with identifier [k] carrying [doc]. *)
Definition record_line (p : t) (line : string) (k : string) (doc : value) : Prop :=
  identified_line p line doc k /\ deleted_flag doc = false.

(** A tombstone line for the identifier [k]. *)
Definition tombstone_line (p : t) (line : string) (k : string) : Prop :=
  exists doc, identified_line p line doc k /\ deleted_flag doc = true.

(** A record or tombstone line for [k]. *)
Definition touches_record (p : t) (line : string) (k : string) : Prop :=
  exists doc, identified_line p line doc k.

(** An index-creation directive [spec] for the field whose key is [f]. *)
Definition index_created_line (p : t) (line : string) (f : string) (spec : value) : Prop :=
  exists doc, unidentified_line p line doc /\ creation_guard doc = true /\
    get doc "$$indexCreated" = Normal spec /\
    exists fieldName, get spec "fieldName" = Normal fieldName /\
                      ToPropertyKey fieldName = Normal f.

(** An index-removal directive for the field [f]. *)
Definition index_removed_line (p : t) (line : string) (f : string) : Prop :=
  exists doc, unidentified_line p line doc /\ creation_guard doc = false /\
    get doc "$$indexRemoved" = Normal (Str f).

(** An index directive, of either kind, for [f]. *)
Definition touches_index (p : t) (line : string) (f : string) : Prop :=
  (exists spec, index_created_line p line f spec) \/ index_removed_line p line f.

(** The [try] block throws on the line (whatever the maps are). *)
Definition corrupt (p : t) (line : string) : bool :=
  match try_datum p ∅ ∅ line with
  | Normal _ => false
  | Throw _ => true
  end.

Definition corrupt_count (p : t) (lines : list string) : nat :=
  length (filter (fun line => corrupt p line = true) lines).

(** The quotient compared with the threshold: the counter, which starts
    at -1, over the number of lines. *)
Definition corrupt_ratio (p : t) (lines : list string) : Q :=
  inject_Z (Z.of_nat (corrupt_count p lines) - 1) / inject_Z (Z.of_nat (length lines)).

(** The replay state a streaming replay carries. *)
Definition to_replay (s : stream_replay) : replay :=
  Replay (sDataById s) (sIndexes s) (sCorruptItems s).


(** ** Appending and the rest of the vocabulary *)

(** [persistNewState(newDocs, callback)].  With no file name in durable
    mode, [appendFile(null, ...)] throws. *)
Definition persistNewState (p : t) (newDocs : list value) (io : append_io) : step := fun w =>
  if inMemoryOnly p then (Callback None, w)
  else
    let toPersist :=
      fold_left (fun toPersist doc =>
                   toPersist +:+ (afterSerialization p (serialize doc) +:+ newline))
                newDocs "" in
    if (String.length toPersist =? 0)%nat then (Callback None, w)
    else match filename p with
         | None => (Uncaught TypeError, w)
         | Some f => appendFile f toPersist io w
         end.

(** The documents [persistCachedDatabase] serializes, in order: the
    data, then one directive per index other than [_id]. *)
Definition compaction_docs (db : Datastore.t) : list value :=
  Datastore.getAllData db
  ++ map (fun fieldName =>
            indexCreated_doc fieldName
              (default (Index false false) (Datastore.indexes db !! fieldName)))
         (filter (fun fieldName => fieldName <> "_id") (Object_keys (Datastore.indexes db))).

(** The specification an index directive carries: the value of
    [$$indexCreated] in [indexCreated_doc]. *)
Definition index_spec (fieldName : string) (ix : index) : value :=
  Obj [("fieldName", Str fieldName);
       ("unique", Bool (unique ix));
       ("sparse", Bool (sparse ix))].

(** The document survives serialization, the hooks and deserialization,
    and its serialized form holds on one line. *)
Definition survives (p : t) (doc : value) : Prop :=
  deserialize (beforeDeserialization p (afterSerialization p (serialize doc))) = Normal doc /\
  has_newline (afterSerialization p (serialize doc)) = false.

(** The identifier of a document, when it is a non-empty string. *)
Definition string_id (doc : value) : option string :=
  match get doc "_id" with
  | Normal (Str k) => if String.eqb k "" then None else Some k
  | _ => None
  end.

(** A live record: its identifier is a non-empty string and it carries
    no deletion marker. *)
Definition live_record (doc : value) : Prop :=
  is_Some (string_id doc) /\ deleted_flag doc = false.


End WithEnvironment.


(** ** The autocompaction timer *)

(** The interval timers of the process: the period of every live timer,
    by identifier, and the last identifier handed out.  Identifiers
    start at 1 and are never reused. *)
Record timers : Type := Timers {
  live : gmap nat Z;
  last_id : nat
}.

(** The longest delay a timer of Node accepts ([TIMEOUT_MAX]). *)
Definition TIMEOUT_MAX : Z := 2147483647.

(** The delay a timer of Node is given: a delay below 1 or above
    [TIMEOUT_MAX] is replaced by 1. *)
Definition timer_delay (ms : Z) : Z :=
  if (1 <=? ms)%Z && (ms <=? TIMEOUT_MAX)%Z then ms else 1%Z.

(** [setInterval(callback, ms)] *)
Definition setInterval (ms : Z) (ts : timers) : nat * timers :=
  let id := S (last_id ts) in
  (id, Timers (<[id := timer_delay ms]> (live ts)) id).

(** [clearInterval(id)] *)
Definition clearInterval (id : nat) (ts : timers) : timers :=
  Timers (delete id (live ts)) (last_id ts).

(** [this.autocompactionIntervalId] and the timers of the process. *)
Record autocompaction : Type := Autocompaction {
  autocompactionIntervalId : option nat;
  process_timers : timers
}.

(** [stopAutocompaction()]: the identifier is left in place. *)
Definition stopAutocompaction (st : autocompaction) : autocompaction :=
  match autocompactionIntervalId st with
  | Some id =>
      if negb (Nat.eqb id 0)
      then Autocompaction (Some id) (clearInterval id (process_timers st))
      else st
  | None => st
  end.

(** [setAutocompactionInterval(interval)] *)
Definition setAutocompactionInterval (interval : option Z) (st : autocompaction)
  : autocompaction :=
  let minInterval := 5000%Z in
  let realInterval := Z.max (number_or interval 0) minInterval in
  let st := stopAutocompaction st in
  let '(id, ts) := setInterval realInterval (process_timers st) in
  Autocompaction (Some id) ts.

(** A call to one of the two. *)
Inductive autocompaction_call : Type :=
  | SetInterval (interval : option Z)
  | Stop.

Definition run_call (st : autocompaction) (c : autocompaction_call) : autocompaction :=
  match c with
  | SetInterval interval => setAutocompactionInterval interval st
  | Stop => stopAutocompaction st
  end.

(** A new object in a process with no timer yet. *)
Definition autocompaction_start : autocompaction :=
  Autocompaction None (Timers ∅ 0).

(** Every live timer is the one the object remembers, its period is
    between the minimum and [TIMEOUT_MAX], or 1 ms, and its identifier
    is one that was handed out. *)
Definition one_timer (st : autocompaction) : Prop :=
  forall id ms, live (process_timers st) !! id = Some ms ->
    autocompactionIntervalId st = Some id /\
    ((5000 <= ms <= TIMEOUT_MAX)%Z \/ ms = 1%Z) /\
    (1 <= id <= last_id (process_timers st))%nat.

End Persistence.

(** * [browser-version/lib/storage.react-native.js] *)

Module ReactNativeStorage.
Import JS Storage.

(** [AsyncStorage]: a store of strings by key; [getItem] of a missing
    key yields [null].  The response [io] of [setItem] and [removeItem]
    is the error passed to their callback, the store being left as it
    was. *)
Definition store : Type := gmap string string.

(** [exists(filename, cback)]: [value !== null]. *)
Definition exists_ (filename : string) (s : store) : bool :=
  bool_decide (is_Some (s !! filename)).

(** [writeFile(filename, contents, options, callback)] *)
Definition writeFile (filename contents : string) (io : option error) (s : store)
  : outcome * store :=
  match io with
  | Some e => (Callback (Some e), s)
  | None => (Callback None, <[filename := contents]> s)
  end.

(** [contents || ''] *)
Definition contents_or_empty (contents : option string) : string :=
  match contents with
  | Some c => if String.eqb c "" then "" else c
  | None => ""
  end.

(** [appendFile(filename, toAppend, options, callback)] *)
Definition appendFile (filename toAppend : string) (io : option error) (s : store)
  : outcome * store :=
  let contents := contents_or_empty (s !! filename) in
  let contents := contents +:+ toAppend in
  match io with
  | Some e => (Callback (Some e), s)
  | None => (Callback None, <[filename := contents]> s)
  end.

(** [readFile(filename, options, callback)]: [callback(null, contents || '')]. *)
Definition readFile (filename : string) (s : store) : string :=
  contents_or_empty (s !! filename).

(** [unlink(filename, callback)] *)
Definition unlink (filename : string) (io : option error) (s : store) : outcome * store :=
  match io with
  | Some e => (Callback (Some e), s)
  | None => (Callback None, delete filename s)
  end.

(** [mkdir] and [ensureDatafileIntegrity]: nothing to do. *)
Definition mkdir (dir : string) (s : store) : outcome * store := (Callback None, s).
Definition ensureDatafileIntegrity (filename : string) (s : store) : outcome * store :=
  (Callback None, s).

(** [crashSafeWriteFileLines(filename, lines, callback)]: the outcome,
    the store, and the array [lines] of the caller, which the function
    extends in place. *)
Definition crashSafeWriteFileLines (filename : string) (lines : list string)
    (io : option error) (s : store) : outcome * store * list string :=
  let lines := lines ++ [""] in
  (writeFile filename (join_lines lines) io s, lines).

End ReactNativeStorage.


(** * A sample environment

    Stand-ins for the modules that are not part of the sources at hand
    (and a toy line format in place of JSON), used to run the model on
    concrete inputs. *)

Module Sample.
Import JS Storage Persistence.

Definition dirname (path : string) : string := ".".

Definition path_join (parts : list string) : string := String.concat "/" parts.

(** A string of [len] characters, the same at every draw. *)
Definition uid (len j : nat) : string := String.concat "" (replicate len "x").

(** The toy line format: the first character is the kind of the line
    ([=] and [#] for two revisions of a record, [-] for a tombstone, [+]
    and [~] for the creation and the removal of an index), the rest is
    the identifier or the field name; [null] and [{}] stand for
    themselves; anything else does not parse. *)
Definition deserialize (line : string) : completion value :=
  if String.eqb line "null" then Normal Null
  else if String.eqb line "{}" then Normal (Obj [])
  else match line with
       | String kind name =>
           if Ascii.eqb kind "="%char then Normal (Obj [("_id", Str name); ("rev", Num 1)])
           else if Ascii.eqb kind "#"%char then Normal (Obj [("_id", Str name); ("rev", Num 2)])
           else if Ascii.eqb kind "-"%char then Normal (Obj [("_id", Str name); ("$$deleted", Bool true)])
           else if Ascii.eqb kind "+"%char then
             Normal (Obj [("$$indexCreated",
                           Obj [("fieldName", Str name); ("unique", Bool false);
                                ("sparse", Bool false)])])
           else if Ascii.eqb kind "~"%char then Normal (Obj [("$$indexRemoved", Str name)])
           else Throw (Error "Unexpected token")
       | EmptyString => Throw (Error "Unexpected end of input")
       end.

Definition serialize (doc : value) : string :=
  match doc with
  | Obj (("_id", Str name) :: ("$$deleted", Bool true) :: _) => "-" +:+ name
  | Obj (("_id", Str name) :: ("rev", Num 2) :: _) => "#" +:+ name
  | Obj (("_id", Str name) :: _) => "=" +:+ name
  | Obj (("$$indexCreated", Obj (("fieldName", Str name) :: _)) :: _) => "+" +:+ name
  | Obj (("$$indexRemoved", Str name) :: _) => "~" +:+ name
  | Null => "null"
  | _ => "{}"
  end.

Definition key_of_nonstring (v : value) : completion string :=
  match v with
  | Undefined => Normal "undefined"
  | Null => Normal "null"
  | Bool b => Normal (if b then "true" else "false")
  | Num n => Normal (pretty n)
  | _ => Normal "[object Object]"
  end.

Definition process : Persistence.process := Process "linux" None None (Some "/home/user").

(** A durable store on [menu.db] and an in-memory one, with the default
    threshold and no hooks. *)
Definition durable : Persistence.t :=
  Persistence.Make false (Some "menu.db") (1 # 10) (fun s => s) (fun s => s).

Definition in_memory : Persistence.t :=
  Persistence.Make true None (1 # 10) (fun s => s) (fun s => s).

Definition flush_ok : flush_io := FlushIO None None None.

Definition rewrite_ok : rewrite_io :=
  RewriteIO flush_ok flush_ok WriteOk flush_ok None flush_ok.

(** The lines of a text, joined. *)
Definition text (lines : list string) : string := String.concat newline lines.

(** A file system holding the datafile [menu.db], and one where a crash
    left only the temp file. *)
Definition disk : world := World {["menu.db" := "=a" +:+ newline]} [].
Definition crashed_disk : world := World {["menu.db~" := "#a" +:+ newline]} [].

(** A log of seven lines: two revisions of [a], a record [b] and its
    tombstone, an index on [f], the removal of an index on [g], and the
    trailing blank line. *)
Definition menu_log : string := text ["=a"; "=b"; "#a"; "-b"; "+f"; "~g"; ""].

(** Ten lines of which two do not parse, and nine of which two do not. *)
Definition log_at_threshold : string :=
  text ["=a"; "=b"; "=c"; "=d"; "=e"; "=f"; "=g"; "=h"; "?"; ""].
Definition log_above_threshold : string :=
  text ["=a"; "=b"; "=c"; "=d"; "=e"; "=f"; "=g"; "?"; ""].

(** A datastore with two records, the primary index and one more. *)
Definition menu_db : Datastore.t :=
  Datastore.Make false (Some "menu.db")
    [Obj [("_id", Str "a"); ("rev", Num 2)]; Obj [("_id", Str "b"); ("rev", Num 1)]]
    {["_id" := Index true false; "name" := Index false false]} [].

(** A store that holds nothing yet. *)
Definition append_ok : append_io := AppendOk.

(** Two new documents to append. *)
Definition new_docs : list value :=
  [Obj [("_id", Str "c"); ("rev", Num 1)]; Obj [("_id", Str "a"); ("$$deleted", Bool true)]].

(** A file system where an earlier rewrite left a stale temp file. *)
Definition stale_disk : world :=
  World {["menu.db" := "=a" +:+ newline; "menu.db~" := "#"]} [].

(** Responses in which the write of the temp file fails half way, and
    in which only the last flush of the directory fails. *)
Definition write_fails : rewrite_io :=
  RewriteIO flush_ok flush_ok (WriteFails (Some "#") (SysError "ENOSPC")) flush_ok None flush_ok.

Definition last_flush_fails : rewrite_io :=
  RewriteIO flush_ok flush_ok WriteOk flush_ok None
            (FlushIO (Some (SysError "EIO")) None None).

(** The options of a durable store on [menu.db], with no hook. *)
Definition menu_options : options :=
  Options (Datastore.Make false (Some "menu.db") [] ∅ []) None None None None.

End Sample.
(** * Properties of the storage layer *)

Import JS Storage Persistence.

(** The text written by a rewrite never lands on the target itself. *)
Lemma length_append (s t : string) :
  String.length (s +:+ t) = String.length s + String.length t.
Proof. induction s as [|c s IH]; simpl; [reflexivity | now rewrite IH]. Qed.

Lemma temp_name_fresh (filename : string) : filename +:+ "~" <> filename.
Proof.
  intros E. apply (f_equal String.length) in E.
  rewrite length_append in E. simpl in E. lia.
Qed.

Lemma code_is_spec (e : error) (c : string) : code_is e c = true <-> code e = Some c.
Proof.
  unfold code_is. destruct (code e) as [c'|]; [|split; discriminate].
  rewrite String.eqb_eq. split; congruence.
Qed.

Lemma open_unsupported_spec (o : flush_options) (err : error) :
  code_is err "EISDIR" && isDir o = true <-> open_unsupported o err.
Proof.
  unfold open_unsupported. rewrite andb_true_iff, code_is_spec. reflexivity.
Qed.

Lemma fsync_unsupported_spec (o : flush_options) (errFS : error) :
  (code_is errFS "EPERM" || code_is errFS "EISDIR") && isDir o = true
  <-> fsync_unsupported o errFS.
Proof.
  unfold fsync_unsupported.
  rewrite andb_true_iff, orb_true_iff, !code_is_spec. reflexivity.
Qed.

(** A flush touches no file: it only adds its call to the journal. *)
Lemma flushToStorage_world (o : flush_options) (io : flush_io) (w : world) :
  (flushToStorage o io w).2 = log (SysFlush (flush_filename o) (flush_flags o)) w.
Proof. unfold flushToStorage. destruct (open_err io); reflexivity. Qed.

(** Apart from a failed [close] after a successful [fsync], every
    combination of responses ends in one invocation of the callback. *)
Lemma flushToStorage_calls_back (o : flush_options) (io : flush_io) (w : world) :
  is_Some (open_err io) \/ is_Some (fsync_err io) \/ close_err io = None ->
  exists err, (flushToStorage o io w).1 = Callback err.
Proof.
  unfold flushToStorage, flush_verdict.
  destruct io as [[eo|] [ef|] [ec|]]; simpl; intros H; eauto.
  - destruct (_ && _); simpl; eauto.
  - destruct (_ && _); simpl; eauto.
  - destruct H as [[? H]|[[? H]|H]]; discriminate.
Qed.

(** C8: a flush reports success when the failure carries a recognized
    flush-unsupported signature on a directory flush (an [open] failing
    with [EISDIR], or an [fsync] failing with [EPERM] or [EISDIR], when
    [isDir] is set); every other failure of [open] or of [fsync] reaches
    the caller as an error: the error of [open] itself, or the
    'Failed to flush to storage' error carrying both causes. *)
Theorem flushToStorage_unsupported_is_success (o : flush_options) (io : flush_io) (w : world) :
  (forall err, open_err io = Some err ->
     (open_unsupported o err -> (flushToStorage o io w).1 = Callback None) /\
     (~ open_unsupported o err -> (flushToStorage o io w).1 = Callback (Some err))) /\
  (forall errFS, open_err io = None -> fsync_err io = Some errFS ->
     (fsync_unsupported o errFS -> (flushToStorage o io w).1 = Callback None) /\
     (~ fsync_unsupported o errFS ->
        (flushToStorage o io w).1 = Callback (Some (FlushError (Some errFS) (close_err io))))).
Proof.
  split.
  - intros err Hopen. unfold flushToStorage. rewrite Hopen. simpl.
    destruct (code_is err "EISDIR" && isDir o) eqn:E.
    + split; [reflexivity|]. intros N. exfalso. apply N. now apply open_unsupported_spec.
    + split; [|reflexivity]. intros U. apply open_unsupported_spec in U. congruence.
  - intros errFS Hopen Hfsync. unfold flushToStorage, flush_verdict.
    rewrite Hopen, Hfsync. simpl.
    destruct ((code_is errFS "EPERM" || code_is errFS "EISDIR") && isDir o) eqn:E; simpl.
    + split; [reflexivity|]. intros N. exfalso. apply N. now apply fsync_unsupported_spec.
    + split; [|reflexivity]. intros U. apply fsync_unsupported_spec in U. congruence.
Qed.

(** C9, at the failing input: when [open] and [fsync] succeed and
    [close] fails, the test [errFS.code] reads a property of [null]; a
    [TypeError] escapes from the [close] callback and the callback of
    [flushToStorage] is never invoked. *)
Theorem flushToStorage_close_failure_escapes (o : flush_options) (errC : error) (w : world) :
  (flushToStorage o (FlushIO None None (Some errC)) w).1 = Uncaught TypeError.
Proof. reflexivity. Qed.

(** ** The crash-safe rewrite *)

Lemma flushToStorage_run (o : flush_options) (io : flush_io) (w : world) :
  exists r, flushToStorage o io w = (r, log (SysFlush (flush_filename o) (flush_flags o)) w).
Proof.
  exists (flushToStorage o io w).1. rewrite <- (flushToStorage_world o io w).
  now destruct (flushToStorage o io w).
Qed.

Ltac flush_case :=
  match goal with
  | |- context [flushToStorage ?o ?io ?w] =>
      let r := fresh "r" in let E := fresh "E" in
      destruct (flushToStorage_run o io w) as [r E]; rewrite ?E; clear E;
      destruct r as [[?|]|?]; cbn [flush_filename flush_flags]
  end.

Ltac files_lookup :=
  cbn [fst snd journal files log set_files];
  rewrite ?lookup_insert_eq, ?lookup_insert_ne, ?lookup_delete_ne by assumption;
  try reflexivity.

Section Rewrite.
Variable dirname : string -> string.

Local Abbreviation crashSafeWriteFileLines := (Storage.crashSafeWriteFileLines dirname).
Local Abbreviation steps_before := (Storage.steps_before dirname).
Local Abbreviation steps_after := (Storage.steps_after dirname).

(** The steps after the write, once the caller has been told of a
    failure or not. *)
Lemma waterfall_after (filename : string) (io : rewrite_io) (live : bool) (w : world) :
  (waterfall (map once (steps_after filename io)) live w).1.1
  = (if live then [(chain (steps_after filename io) w).1]
     else escaped (chain (steps_after filename io) w).1) /\
  (waterfall (map once (steps_after filename io)) live w).2
  = (chain (steps_after filename io) w).2.
Proof.
  unfold Storage.steps_after.
  cbn [map waterfall chain]. unfold once.
  flush_case; cbn [fold_left app fst snd escaped].
  1,3: destruct live; split; reflexivity.
  destruct (rename (filename +:+ "~") filename (rename_temp io) _) as [[[e|]|x] w1];
    cbn [fold_left app fst snd escaped].
  1,3: destruct live; split; reflexivity.
  flush_case; cbn [fold_left app fst snd escaped];
    destruct live; split; reflexivity.
Qed.

Lemma waterfall_cons (first : task) (rest : list task) (live : bool) (w : world) :
  waterfall (first :: rest) live w =
  let '(events, w) := first w in
  fold_left
    (fun (state : list outcome * bool * world) event =>
       let '(seen, live, w) := state in
       match event with
       | Callback (Some e) =>
           (seen ++ (if live then [event] else []),
            match rest with [] => live | _ :: _ => false end, w)
       | Callback None =>
           let '(seen', live, w) := waterfall rest live w in
           (seen ++ seen', live, w)
       | Uncaught _ => (seen ++ [event], live, w)
       end)
    events ([], live, w).
Proof. reflexivity. Qed.

(** The write and what follows it: a write that succeeds is followed
    by the three steps after it; a write stream that fails has the
    caller told of the failure, and then the three steps run all the
    same. *)
Lemma waterfall_write (filename : string) (lines : list string) (io : rewrite_io)
    (w : world) :
  let run :=
    waterfall
      ((fun w =>
          let '(calls, w) := writeFileLines (filename +:+ "~") lines (write_temp io) w in
          (map Callback calls, w))
       :: map once (steps_after filename io)) true w in
  (run.1.1, run.2) =
  let w := log (SysWriteLines (filename +:+ "~") lines) w in
  match write_temp io with
  | WriteOk =>
      let after := chain (steps_after filename io)
                     (set_files (<[filename +:+ "~" := file_text lines]> (files w)) w) in
      ([after.1], after.2)
  | WriteThrows e => ([Callback (Some e)], w)
  | WriteFails remains e =>
      let after := chain (steps_after filename io)
                     (set_files (match remains with
                                 | Some s => <[filename +:+ "~" := s]> (files w)
                                 | None => delete (filename +:+ "~") (files w)
                                 end) w) in
      (Callback (Some e) :: escaped after.1, after.2)
  end.
Proof.
  cbv zeta. rewrite waterfall_cons. unfold writeFileLines.
  destruct (write_temp io) as [|e|remains e]; cbn [map fold_left app fst snd].
  - match goal with
    | |- context [waterfall _ true ?w0] =>
        pose proof (waterfall_after filename io true w0) as H
    end.
    destruct H as [Hseen Hworld].
    destruct (waterfall (map once (steps_after filename io)) true _) as [[seen live] w3].
    cbn [fst snd] in *. now rewrite Hseen, Hworld.
  - reflexivity.
  - pose proof (waterfall_after filename io false) as H.
    unfold Storage.steps_after in *. cbn [map] in *.
    match goal with
    | |- context [waterfall _ false ?w0] =>
        destruct (H w0) as [Hseen Hworld]; clear H;
        destruct (waterfall _ false w0) as [[seen live] w3]
    end.
    cbn [fst snd app] in *. now rewrite Hseen, Hworld.
Qed.

(** The rewrite, step by step: the two steps before the write run as a
    chain, and the write follows when they succeed. *)
Lemma crashSafeWriteFileLines_events_eq (filename : string) (lines : list string)
    (io : rewrite_io) (w : world) :
  crashSafeWriteFileLines_events dirname filename lines io w =
  match chain (steps_before filename io) w with
  | (Callback None, w) =>
      let w := log (SysWriteLines (filename +:+ "~") lines) w in
      match write_temp io with
      | WriteOk =>
          let after := chain (steps_after filename io)
                         (set_files (<[filename +:+ "~" := file_text lines]> (files w)) w) in
          ([after.1], after.2)
      | WriteThrows e => ([Callback (Some e)], w)
      | WriteFails remains e =>
          let after := chain (steps_after filename io)
                         (set_files (match remains with
                                     | Some s => <[filename +:+ "~" := s]> (files w)
                                     | None => delete (filename +:+ "~") (files w)
                                     end) w) in
          (Callback (Some e) :: escaped after.1, after.2)
      end
  | (failed, w) => ([failed], w)
  end.
Proof.
  unfold Storage.crashSafeWriteFileLines_events, Storage.steps_before.
  change [once (flushToStorage (FlushFile (filename +:+ "~")) (flush_temp io));
          once (rename (filename +:+ "~") filename (rename_temp io));
          once (flushToStorage (FlushOpts (dirname filename) true) (flush_dir_after io))]
    with (map once (steps_after filename io)).
  cbn [chain]. rewrite waterfall_cons. unfold once at 1.
  flush_case; cbn [fold_left app]; try reflexivity.
  rewrite waterfall_cons. unfold once at 1.
  match goal with
  | |- context [exists_ filename ?w0] => destruct (exists_ filename w0) as [found w1]
  end.
  destruct found.
  - flush_case; cbn [fold_left app]; try reflexivity.
    match goal with
    | |- context [waterfall _ true ?w0] =>
        pose proof (waterfall_write filename lines io w0) as H; cbv zeta in H;
        destruct (waterfall _ true w0) as [[seen' live] w2]
    end.
    exact H.
  - cbn [fold_left app].
    match goal with
    | |- context [waterfall _ true ?w0] =>
        pose proof (waterfall_write filename lines io w0) as H; cbv zeta in H;
        destruct (waterfall _ true w0) as [[seen' live] w2]
    end.
    exact H.
Qed.

Lemma crashSafeWriteFileLines_eq (filename : string) (lines : list string)
    (io : rewrite_io) (w : world) :
  crashSafeWriteFileLines filename lines io w =
  match chain (steps_before filename io) w with
  | (Callback None, w) =>
      let w := log (SysWriteLines (filename +:+ "~") lines) w in
      match write_temp io with
      | WriteOk =>
          chain (steps_after filename io)
            (set_files (<[filename +:+ "~" := file_text lines]> (files w)) w)
      | WriteThrows e => (Callback (Some e), w)
      | WriteFails remains e =>
          (Callback (Some e),
           (chain (steps_after filename io)
              (set_files (match remains with
                          | Some s => <[filename +:+ "~" := s]> (files w)
                          | None => delete (filename +:+ "~") (files w)
                          end) w)).2)
      end
  | (failed, w) => (failed, w)
  end.
Proof.
  unfold Storage.crashSafeWriteFileLines. rewrite crashSafeWriteFileLines_events_eq.
  destruct (chain (steps_before filename io) w) as [[[e|]|x] w1]; try reflexivity.
  cbv zeta. destruct (write_temp io) as [|e|remains e]; try reflexivity.
  now destruct (chain _ _).
Qed.

(** The outcome of a flush depends on the responses alone. *)
Lemma flushToStorage_result (o : flush_options) (io : flush_io) (w w' : world) :
  (flushToStorage o io w).1 = (flushToStorage o io w').1.
Proof. unfold flushToStorage. now destruct (open_err io). Qed.

(** The caller of a rewrite is called back or sees an exception escape,
    and what it sees after that first event can only be an exception:
    its callback is invoked once at most. *)
Lemma crashSafeWriteFileLines_observed (filename : string) (lines : list string)
    (io : rewrite_io) (w : world) :
  exists later,
    (crashSafeWriteFileLines_events dirname filename lines io w).1
    = (crashSafeWriteFileLines filename lines io w).1 :: later /\
    Forall (fun event => exists e, event = Uncaught e) later.
Proof.
  unfold Storage.crashSafeWriteFileLines. rewrite crashSafeWriteFileLines_events_eq.
  destruct (chain (steps_before filename io) w) as [[[e|]|x] w1];
    try (exists []; split; [reflexivity|constructor]).
  cbv zeta. destruct (write_temp io) as [|e|remains e];
    try (exists []; split; [reflexivity|constructor]).
  match goal with |- context [chain _ ?w0] => destruct (chain (steps_after filename io) w0)
                                                as [[[e'|]|x] w2] end;
    cbn [fst snd escaped first_event].
  - exists []. split; [reflexivity|constructor].
  - exists []. split; [reflexivity|constructor].
  - exists [Uncaught x]. split; [reflexivity|]. repeat constructor. eauto.
Qed.

Lemma flushToStorage_at (o : flush_options) (io : flush_io) (w w' : world) :
  flushToStorage o io w'
  = ((flushToStorage o io w).1, log (SysFlush (flush_filename o) (flush_flags o)) w').
Proof. unfold flushToStorage. destruct (open_err io); reflexivity. Qed.

(** The two steps before the write touch no file. *)
Lemma steps_before_files (filename : string) (io : rewrite_io) (w : world) :
  files (chain (steps_before filename io) w).2 = files w.
Proof.
  unfold Storage.steps_before. cbn [chain]. flush_case; try reflexivity.
  unfold exists_. cbn [files log].
  destruct (bool_decide _); [flush_case|]; reflexivity.
Qed.

(** The three steps after the write: either the run stops before the
    rename is done, and no file has changed; or the temp file is
    renamed over the target, and the outcome is that of the last flush
    of the directory. *)
Lemma steps_after_cases (filename : string) (io : rewrite_io) (w : world) :
  let run := chain (steps_after filename io) w in
  (run.1 <> Callback None /\ files run.2 = files w) \/
  (exists content,
     files w !! (filename +:+ "~") = Some content /\
     files run.2 = <[filename := content]> (delete (filename +:+ "~") (files w)) /\
     rename_temp io = None /\
     run.1 = (flushToStorage (FlushOpts (dirname filename) true) (flush_dir_after io) w).1).
Proof.
  cbv zeta. unfold Storage.steps_after. cbn [chain].
  flush_case; cbn [fst snd files log]; [left; split; [discriminate|reflexivity]| |
                                         left; split; [discriminate|reflexivity]].
  unfold rename. cbn [files log].
  destruct (rename_temp io) as [e|]; cbn [fst snd files log];
    [left; split; [discriminate|reflexivity]|].
  destruct (files w !! (filename +:+ "~")) as [content|] eqn:Htemp; cbn [fst snd files log];
    [|left; split; [discriminate|reflexivity]].
  right. exists content. split; [reflexivity|].
  match goal with
  | |- context [flushToStorage ?o ?io' ?w0] =>
      rewrite (flushToStorage_result o io' w w0);
      destruct (flushToStorage_run o io' w0) as [r E]; rewrite E; clear E
  end.
  destruct r as [[e|]|x]; cbn [fst snd files log set_files]; repeat split; reflexivity.
Qed.

(** A rewrite that succeeds leaves the new text in the target. *)
Lemma crashSafeWriteFileLines_success (filename : string) (lines : list string)
    (io : rewrite_io) (w : world) :
  (crashSafeWriteFileLines filename lines io w).1 = Callback None ->
  files (crashSafeWriteFileLines filename lines io w).2 !! filename = Some (file_text lines).
Proof.
  rewrite crashSafeWriteFileLines_eq.
  destruct (chain (steps_before filename io) w) as [[[e|]|x] w1]; try discriminate.
  cbv zeta. destruct (write_temp io) as [|e|remains e]; try discriminate.
  intros Hok.
  match goal with
  | |- context [chain _ ?w0] => destruct (steps_after_cases filename io w0) as [[Hfail _]|H]
  end; [contradiction|].
  destruct H as (content & Htemp & -> & _). cbn [files set_files log] in Htemp.
  rewrite lookup_insert_eq in Htemp. injection Htemp as <-. apply lookup_insert_eq.
Qed.

(** C1, at the failing input: the write stream of the temp file fails
    with [e] after leaving [partial] in it, and every other call
    succeeds.  The caller is told of the failure, once; the chain then
    runs its last three steps all the same, so that all the calls of the
    protocol are made, the target (which held [old]) holds the partial
    text, and the temp file is gone. *)
Theorem crashSafeWriteFileLines_promotes_failed_write (filename : string)
    (lines : list string) (old partial : string) (e : error)
    (others : gmap string string) (calls : list syscall) :
  let succeeds := FlushIO None None None in
  let io := RewriteIO succeeds succeeds (WriteFails (Some partial) e) succeeds None succeeds in
  let w := World (<[filename := old]> others) calls in
  let run := crashSafeWriteFileLines filename lines io w in
  (crashSafeWriteFileLines_events dirname filename lines io w).1 = [Callback (Some e)] /\
  run.1 = Callback (Some e) /\
  journal run.2 = calls ++ protocol dirname filename lines true /\
  files run.2 !! filename = Some partial /\
  files run.2 !! (filename +:+ "~") = None.
Proof.
  cbv zeta. pose proof (temp_name_fresh filename) as Hfresh.
  assert (Hflush : forall o w0,
            flushToStorage o (FlushIO None None None) w0
            = (Callback None, log (SysFlush (flush_filename o) (flush_flags o)) w0))
    by reflexivity.
  rewrite crashSafeWriteFileLines_eq, crashSafeWriteFileLines_events_eq.
  unfold Storage.steps_before, Storage.steps_after, Storage.protocol, exists_, rename.
  cbn [chain flush_dir_before flush_target write_temp flush_temp rename_temp
       flush_dir_after].
  rewrite !Hflush. cbn [files journal log set_files flush_filename flush_flags].
  rewrite lookup_insert_eq, (bool_decide_eq_true_2 _ (mk_is_Some _ _ eq_refl)).
  rewrite !Hflush. cbn [files journal log set_files flush_filename flush_flags fst snd].
  rewrite lookup_insert_eq, !Hflush.
  cbn [files journal log set_files flush_filename flush_flags fst snd escaped].
  split; [reflexivity|]. split; [reflexivity|].
  split; [rewrite <- !app_assoc; reflexivity|].
  split; [apply lookup_insert_eq|].
  rewrite lookup_insert_ne by congruence. apply lookup_delete_eq.
Qed.

End Rewrite.

(** ** The startup recovery check *)

(** C2: the recovery check does nothing when the target exists; when
    the target is missing and the temp file exists it renames the temp
    file to the target, whose content becomes the datafile; when neither
    exists it creates an empty target. *)
Theorem ensureDatafileIntegrity_recovers (filename : string) (io : integrity_io) (w : world) :
  let temp := filename +:+ "~" in
  let run := ensureDatafileIntegrity filename io w in
  (is_Some (files w !! filename) ->
     run = (Callback None, log (SysAccess filename) w) /\ files run.2 = files w) /\
  (files w !! filename = None -> is_Some (files w !! temp) ->
     run = rename temp filename (promote_temp io)
             (log (SysAccess temp) (log (SysAccess filename) w)) /\
     (promote_temp io = None ->
        run.1 = Callback None /\
        files run.2 !! filename = files w !! temp /\
        files run.2 !! temp = None)) /\
  (files w !! filename = None -> files w !! temp = None ->
     run = writeFile filename "" (create_empty io)
             (log (SysAccess temp) (log (SysAccess filename) w)) /\
     (create_empty io = None ->
        run.1 = Callback None /\ files run.2 !! filename = Some "")).
Proof.
  intros temp run. subst run temp. unfold ensureDatafileIntegrity, exists_.
  pose proof (temp_name_fresh filename) as Hfresh.
  cbn [files log]. split; [|split].
  - intros Htarget. rewrite bool_decide_eq_true_2 by assumption. split; reflexivity.
  - intros Hmissing [content Htemp].
    rewrite bool_decide_eq_false_2 by (rewrite Hmissing; apply is_Some_None).
    rewrite bool_decide_eq_true_2 by (rewrite Htemp; eauto).
    split; [reflexivity|]. intros Hrename. unfold rename. rewrite Hrename.
    cbn [files log]. rewrite Htemp. cbn [negb fst snd files set_files].
    split; [reflexivity|]. split.
    + apply lookup_insert_eq.
    + rewrite lookup_insert_ne by congruence. apply lookup_delete_eq.
  - intros Hmissing Hnotemp.
    rewrite !bool_decide_eq_false_2 by (rewrite ?Hmissing, ?Hnotemp; apply is_Some_None).
    split; [reflexivity|]. intros Hcreate. unfold writeFile. rewrite Hcreate.
    cbn [fst snd files set_files log]. split; [reflexivity|]. apply lookup_insert_eq.
Qed.


(** * Properties of the constructor *)

Section ConstructorFacts.
Variable path_join : list string -> string.
Variable uid : nat -> nat -> string.

Local Abbreviation probe_hooks := (Persistence.probe_hooks uid).
Local Abbreviation constructor := (Persistence.constructor path_join uid).
Local Abbreviation probe_fails := (Persistence.probe_fails uid).

Lemma get_last (s : string) (c : Ascii.ascii) :
  String.get (String.length s - 1) s = Some c -> exists stem, s = stem +:+ String c "".
Proof.
  induction s as [|a s IH]; [discriminate|].
  destruct s as [|b s].
  - cbn. intros [= ->]. now exists "".
  - cbn [String.length String.get]. replace (S (S (String.length s)) - 1)%nat
      with (S (String.length (String b s) - 1)) by (cbn; lia).
    intros H. destruct (IH H) as [stem ->]. now exists (String a stem).
Qed.

Lemma get_last_append (stem : string) (c : Ascii.ascii) :
  String.get (String.length (stem +:+ String c "") - 1) (stem +:+ String c "") = Some c.
Proof.
  rewrite length_append. cbn [String.length].
  replace (String.length stem + 1 - 1)%nat with (0 + String.length stem)%nat by lia.
  now rewrite <- String.append_correct2.
Qed.

Lemma last_char_is_tilde_spec (name : string) :
  last_char_is_tilde name = true <-> ends_with_reserved_suffix name.
Proof.
  unfold last_char_is_tilde, charAt, ends_with_reserved_suffix. split.
  - destruct (Z.ltb_spec (Z.of_nat (String.length name) - 1) 0) as [Hneg|Hpos];
      [discriminate|].
    replace (Z.to_nat (Z.of_nat (String.length name) - 1))
      with (String.length name - 1)%nat by lia.
    destruct (String.get (String.length name - 1) name) as [c|] eqn:Hget; [|discriminate].
    intros Heq. apply String.eqb_eq in Heq. injection Heq as ->.
    now apply get_last.
  - intros [stem ->].
    destruct (Z.ltb_spec (Z.of_nat (String.length (stem +:+ "~")) - 1) 0) as [Hneg|Hpos].
    + rewrite length_append in Hneg. cbn in Hneg. lia.
    + replace (Z.to_nat (Z.of_nat (String.length (stem +:+ "~")) - 1))
        with (String.length (stem +:+ "~") - 1)%nat by lia.
      now rewrite get_last_append.
Qed.

Lemma for_each_uniform {A : Type} (items : list A) (body : A -> completion unit) (e : error) :
  (forall y, body y = Normal tt \/ body y = Throw e) ->
  for_each items body = Normal tt \/ for_each items body = Throw e.
Proof.
  intros Hbody. induction items as [|y items IH]; [now left|].
  cbn [for_each]. destruct (Hbody y) as [-> | ->]; cbn [bind]; [exact IH|now right].
Qed.

Lemma for_each_throws {A : Type} (items : list A) (body : A -> completion unit) (e : error)
    (x : A) :
  (forall y, body y = Normal tt \/ body y = Throw e) ->
  x ∈ items -> body x = Throw e -> for_each items body = Throw e.
Proof.
  intros Hbody Hin Hx. induction items as [|y items IH]; [inversion Hin|].
  cbn [for_each]. destruct (Hbody y) as [Hy|Hy]; rewrite Hy; cbn [bind]; [|reflexivity].
  apply elem_of_cons in Hin as [->|Hin]; [congruence|]. now apply IH.
Qed.

Lemma probe_hooks_throws (after before : string -> string) (i j : nat) :
  (1 <= i < 30)%nat -> (j < 10)%nat -> before (after (uid i j)) <> uid i j ->
  probe_hooks after before = Throw (Error not_inverse_message).
Proof.
  intros Hi Hj Hne. unfold Persistence.probe_hooks.
  assert (Hinner : forall i' j',
             throw_if (negb (String.eqb (before (after (uid i' j'))) (uid i' j')))
                      not_inverse_message = Normal tt \/
             throw_if (negb (String.eqb (before (after (uid i' j'))) (uid i' j')))
                      not_inverse_message = Throw (Error not_inverse_message)).
  { intros i' j'. unfold throw_if. destruct (negb _); eauto. }
  apply (for_each_throws _ _ _ i).
  - intros i'. apply for_each_uniform. intros j'. apply Hinner.
  - apply elem_of_seq. lia.
  - apply (for_each_throws _ _ _ j).
    + intros j'. apply Hinner.
    + apply elem_of_seq. lia.
    + unfold throw_if. apply String.eqb_neq in Hne. now rewrite Hne.
Qed.

Lemma reserved_suffix_truthy (name : string) :
  ends_with_reserved_suffix name -> truthy_string (Some name) = true.
Proof. intros [stem ->]. now destruct stem. Qed.

(** C6, amended: the constructor throws a configuration error whenever
    the store is durable (not in-memory-only) and its file name ends in
    [~], whenever exactly one of the two hooks is supplied, and whenever
    one of the strings drawn by the probe (lengths 1 to 29, ten draws
    each) does not survive the round trip through the hooks; the two
    hook checks apply in every mode. *)
Theorem constructor_rejects (proc : process) (o : options) :
  (Datastore.inMemoryOnly (opt_db o) = false /\
   exists name, Datastore.filename (opt_db o) = Some name /\ ends_with_reserved_suffix name)
  \/ unpaired_hooks o \/ probe_fails o ->
  exists message, constructor proc o = Throw (Error message).
Proof.
  intros H. unfold Persistence.constructor.
  destruct (throw_if _ reserved_suffix_message) as [[]|e] eqn:Esuffix;
    [|unfold throw_if in Esuffix; destruct (_ && _) in Esuffix;
      [injection Esuffix as <-; cbn [bind]; eauto | discriminate]].
  cbn [bind].
  destruct H as [[Hmode (name & Hname & Hsuffix)]|H].
  { exfalso. rewrite Hmode, Hname in Esuffix.
    rewrite (reserved_suffix_truthy _ Hsuffix) in Esuffix.
    apply last_char_is_tilde_spec in Hsuffix. rewrite Hsuffix in Esuffix. discriminate. }
  destruct (opt_afterSerialization o) as [after|] eqn:Eafter,
           (opt_beforeDeserialization o) as [before|] eqn:Ebefore;
    rewrite ?bool_decide_eq_true_2 by eauto;
    rewrite ?bool_decide_eq_false_2 by (apply is_Some_None);
    cbn [throw_if bind andb negb]; eauto.
  - destruct H as [[[_ Hb]|[Ha _]]|(i & j & Hi & Hj & Hne)]; try congruence.
    rewrite Eafter, Ebefore in Hne. cbn [default] in *.
    rewrite (probe_hooks_throws _ _ i j Hi Hj Hne). cbn [bind]. eauto.
  - destruct H as [[[[? Ha] _]|[_ [? Hb]]]|(i & j & Hi & Hj & Hne)]; try congruence.
    rewrite Eafter, Ebefore in Hne. cbn [default] in Hne. congruence.
Qed.
(** The threshold of a constructed object: the option, or 0.1. *)
Lemma constructor_threshold (proc : process) (o : options) (p : Persistence.t) :
  constructor proc o = Normal p ->
  corruptAlertThreshold p = default (1 # 10) (opt_corruptAlertThreshold o).
Proof.
  unfold Persistence.constructor.
  repeat match goal with
         | |- context [throw_if ?c ?m] =>
             destruct (throw_if c m) as [[]|]; cbn [bind]; [|discriminate]
         end.
  destruct (probe_hooks _ _) as [[]|]; cbn [bind]; [|discriminate].
  match goal with
  | |- bind ?c _ = _ -> _ => destruct c; cbn [bind]; [|discriminate]
  end.
  intros [= <-]. cbn [corruptAlertThreshold]. now destruct (opt_corruptAlertThreshold o).
Qed.

End ConstructorFacts.

(** * Properties of the replay *)

Section ReplayFacts.
Variable deserialize : string -> completion value.
Variable key_of_nonstring : value -> completion string.
Variable p : Persistence.t.

Local Abbreviation ToPropertyKey := (Persistence.ToPropertyKey key_of_nonstring).
Local Abbreviation try_datum := (Persistence.try_datum deserialize key_of_nonstring).
Local Abbreviation treat_datum := (Persistence.treat_datum deserialize key_of_nonstring).
Local Abbreviation treatRawData := (Persistence.treatRawData deserialize key_of_nonstring).
Local Abbreviation on_data := (Persistence.on_data deserialize key_of_nonstring).
Local Abbreviation handle := (Persistence.handle deserialize key_of_nonstring).
Local Abbreviation treatRawStream := (Persistence.treatRawStream deserialize key_of_nonstring).
Local Abbreviation line_effect := (Persistence.line_effect deserialize key_of_nonstring p).
Local Abbreviation identified_line := (Persistence.identified_line deserialize key_of_nonstring p).
Local Abbreviation unidentified_line := (Persistence.unidentified_line deserialize p).
Local Abbreviation record_line := (Persistence.record_line deserialize key_of_nonstring p).
Local Abbreviation tombstone_line := (Persistence.tombstone_line deserialize key_of_nonstring p).
Local Abbreviation touches_record := (Persistence.touches_record deserialize key_of_nonstring p).
Local Abbreviation index_created_line :=
  (Persistence.index_created_line deserialize key_of_nonstring p).
Local Abbreviation index_removed_line := (Persistence.index_removed_line deserialize p).
Local Abbreviation touches_index := (Persistence.touches_index deserialize key_of_nonstring p).
Local Abbreviation corrupt := (Persistence.corrupt deserialize key_of_nonstring p).
Local Abbreviation corrupt_count := (Persistence.corrupt_count deserialize key_of_nonstring p).
Local Abbreviation corrupt_ratio := (Persistence.corrupt_ratio deserialize key_of_nonstring p).

Lemma lookup_set_property_ne {A : Type} (k k' : string) (v : A) (o : gmap string A) :
  k <> k' -> set_property k v o !! k' = o !! k'.
Proof.
  intros Hne. unfold set_property. destruct (String.eqb k "__proto__"); [reflexivity|].
  now apply lookup_insert_ne.
Qed.

Lemma lookup_set_property_eq {A : Type} (k : string) (v : A) (o : gmap string A) :
  k <> "__proto__" -> set_property k v o !! k = Some v.
Proof.
  intros Hne. unfold set_property. destruct (String.eqb_spec k "__proto__"); [contradiction|].
  apply lookup_insert_eq.
Qed.

Lemma set_property_proto {A : Type} (v : A) (o : gmap string A) :
  set_property "__proto__" v o = o.
Proof. reflexivity. Qed.

Lemma set_property_other {A : Type} (k : string) (v : A) (o : gmap string A) :
  k <> "__proto__" -> set_property k v o = <[k := v]> o.
Proof.
  intros Hne. unfold set_property. now destruct (String.eqb_spec k "__proto__").
Qed.

Lemma Object_values_elem {A : Type} (o : gmap string A) (v : A) :
  v ∈ Object_values o <-> exists k, o !! k = Some v.
Proof.
  unfold Object_values. rewrite list_elem_of_fmap. split.
  - intros [[k v'] [-> Hin]]. exists k. now apply elem_of_map_to_list.
  - intros [k Hk]. exists (k, v). split; [reflexivity|]. now apply elem_of_map_to_list.
Qed.

Lemma split_one_line (line : string) : has_newline line = false -> split LF line = [line].
Proof.
  induction line as [|c line IH]; [reflexivity|].
  cbn [has_newline split]. intros H. apply orb_false_iff in H as [Hc Hline].
  now rewrite Hc, (IH Hline).
Qed.

Lemma try_datum_effect (dataById indexes : gmap string value) (line : string) :
  try_datum p dataById indexes line =
  bind (line_effect line) (fun e => Normal (apply_effect e dataById indexes)).
Proof.
  unfold Persistence.try_datum, line_effect, deleted_flag, creation_guard.
  destruct (deserialize (beforeDeserialization p line)) as [doc|e]; [|reflexivity].
  cbn [bind].
  destruct doc; cbn [get bind truthy]; try reflexivity.
  destruct (truthy (own_property props "_id")).
  - destruct (is_true (own_property props "$$deleted"));
      destruct (ToPropertyKey (own_property props "_id")); reflexivity.
  - destruct (truthy (own_property props "$$indexCreated")) eqn:Et; cbn [bind andb].
    + destruct (own_property props "$$indexCreated") eqn:Eic; try discriminate Et; cbn [get bind not_nullish].
      all: try reflexivity.
      all: try (destruct (own_property props "$$indexRemoved"); reflexivity).
      destruct (own_property props0 "fieldName") eqn:Ef; cbn [not_nullish bind].
      all: try (destruct (own_property props "$$indexRemoved"); reflexivity).
      all: try (destruct (ToPropertyKey _); reflexivity).
      all: reflexivity.
    + destruct (own_property props "$$indexRemoved"); reflexivity.
Qed.

Lemma treat_datum_effect (st : replay) (line : string) :
  treat_datum p st line =
  match line_effect line with
  | Normal e =>
      Replay (apply_effect e (dataById st) (indexes st)).1
             (apply_effect e (dataById st) (indexes st)).2 (corruptItems st)
  | Throw _ => Replay (dataById st) (indexes st) (corruptItems st + 1)
  end.
Proof.
  unfold Persistence.treat_datum. rewrite try_datum_effect.
  destruct (line_effect line) as [e|x]; cbn [bind]; [|reflexivity].
  now destruct (apply_effect e (dataById st) (indexes st)).
Qed.

Lemma record_line_effect (line k : string) (doc : value) :
  record_line line k doc -> line_effect line = Normal (SetRecord k doc).
Proof.
  intros [[Hdoc (id & Hid & Ht & Hk)] Hdel]. unfold Persistence.line_effect.
  rewrite Hdoc. cbn [bind]. rewrite Hid. cbn [bind]. rewrite Ht, Hk. cbn [bind].
  now rewrite Hdel.
Qed.

Lemma tombstone_line_effect (line k : string) :
  tombstone_line line k -> line_effect line = Normal (DeleteRecord k).
Proof.
  intros (doc & [Hdoc (id & Hid & Ht & Hk)] & Hdel). unfold Persistence.line_effect.
  rewrite Hdoc. cbn [bind]. rewrite Hid. cbn [bind]. rewrite Ht, Hk. cbn [bind].
  now rewrite Hdel.
Qed.

Lemma index_created_line_effect (line f : string) (spec : value) :
  index_created_line line f spec -> line_effect line = Normal (SetIndex f spec).
Proof.
  intros (doc & [Hdoc (id & Hid & Ht)] & Hg & Hic & fieldName & Hf & Hk).
  unfold Persistence.line_effect.
  rewrite Hdoc. cbn [bind]. rewrite Hid. cbn [bind]. rewrite Ht, Hg, Hic. cbn [bind].
  rewrite Hf. cbn [bind]. now rewrite Hk.
Qed.

Lemma index_removed_line_effect (line f : string) :
  index_removed_line line f -> line_effect line = Normal (DeleteIndex f).
Proof.
  intros (doc & [Hdoc (id & Hid & Ht)] & Hg & Hir). unfold Persistence.line_effect.
  rewrite Hdoc. cbn [bind]. rewrite Hid. cbn [bind]. rewrite Ht, Hg, Hir. reflexivity.
Qed.

(** The converse, for the lines that reach a key. *)
Lemma effect_touches_record (line k : string) (e : effect) :
  line_effect line = Normal e ->
  (e = DeleteRecord k \/ exists doc, e = SetRecord k doc) -> touches_record line k.
Proof.
  unfold Persistence.line_effect, Persistence.touches_record, Persistence.identified_line.
  destruct (deserialize (beforeDeserialization p line)) as [doc|x]; [|discriminate].
  cbn [bind]. destruct (get doc "_id") as [id|x] eqn:Hid; [|discriminate].
  cbn [bind]. destruct (truthy id) eqn:Ht.
  - destruct (ToPropertyKey id) as [k'|x] eqn:Hk; [|discriminate]. cbn [bind].
    intros [= <-] He. exists doc. split; [reflexivity|]. exists id.
    repeat split; try assumption. rewrite Hk. f_equal.
    destruct (deleted_flag doc); destruct He as [He|[d He]]; congruence.
  - destruct (creation_guard doc).
    + destruct (get doc "$$indexCreated") as [ic|x]; [|discriminate]. cbn [bind].
      destruct (get ic "fieldName") as [fn|x]; [|discriminate]. cbn [bind].
      destruct (ToPropertyKey fn); [|discriminate]. cbn [bind].
      intros [= <-] [He|[d He]]; discriminate.
    + destruct (get doc "$$indexRemoved") as [ir|x]; [|discriminate]. cbn [bind].
      intros [= <-] [He|[d He]]; destruct ir; discriminate.
Qed.

Lemma effect_touches_index (line f : string) (e : effect) :
  line_effect line = Normal e ->
  (e = DeleteIndex f \/ exists spec, e = SetIndex f spec) -> touches_index line f.
Proof.
  unfold Persistence.line_effect, Persistence.touches_index, Persistence.index_created_line, Persistence.index_removed_line, Persistence.unidentified_line.
  destruct (deserialize (beforeDeserialization p line)) as [doc|x]; [|discriminate].
  cbn [bind]. destruct (get doc "_id") as [id|x] eqn:Hid; [|discriminate].
  cbn [bind]. destruct (truthy id) eqn:Ht.
  - destruct (ToPropertyKey id) as [k'|x] eqn:Hk; [|discriminate]. cbn [bind].
    intros [= <-] [He|[d He]]; destruct (deleted_flag doc); discriminate.
  - destruct (creation_guard doc) eqn:Hg.
    + destruct (get doc "$$indexCreated") as [ic|x] eqn:Hic; [|discriminate]. cbn [bind].
      destruct (get ic "fieldName") as [fn|x] eqn:Hfn; [|discriminate]. cbn [bind].
      destruct (ToPropertyKey fn) as [k'|x] eqn:Hk; [|discriminate]. cbn [bind].
      intros [= <-] [He|[spec He]]; [discriminate|]. injection He as <- <-.
      left. exists ic, doc. split; [split; [reflexivity|eauto]|].
      split; [exact Hg|]. split; [exact Hic|]. eauto.
    + destruct (get doc "$$indexRemoved") as [ir|x] eqn:Hir; [|discriminate]. cbn [bind].
      intros [= <-] [He|[spec He]]; destruct ir; try discriminate.
      injection He as <-. right. exists doc. split; [split; [reflexivity|eauto]|].
      split; [exact Hg|exact Hir].
Qed.

(** The maps after one line. *)
Lemma untouched_record (st : replay) (line k : string) :
  ~ touches_record line k ->
  dataById (treat_datum p st line) !! k = dataById st !! k.
Proof.
  intros Hno. rewrite treat_datum_effect.
  destruct (line_effect line) as [e|x] eqn:He; [|reflexivity].
  destruct e as [k' doc|k'| | |]; cbn [apply_effect fst dataById]; try reflexivity.
  - destruct (decide (k' = k)) as [->|Hne].
    + exfalso. apply Hno. eapply effect_touches_record; eauto.
    + now rewrite lookup_set_property_ne.
  - destruct (decide (k' = k)) as [->|Hne].
    + exfalso. apply Hno. eapply effect_touches_record; eauto.
    + now rewrite lookup_delete_ne.
Qed.

Lemma untouched_index (st : replay) (line f : string) :
  ~ touches_index line f ->
  indexes (treat_datum p st line) !! f = indexes st !! f.
Proof.
  intros Hno. rewrite treat_datum_effect.
  destruct (line_effect line) as [e|x] eqn:He; [|reflexivity].
  destruct e as [| |k' spec|k'|]; cbn [apply_effect snd indexes]; try reflexivity.
  - destruct (decide (k' = f)) as [->|Hne].
    + exfalso. apply Hno. eapply effect_touches_index; eauto.
    + now rewrite lookup_set_property_ne.
  - destruct (decide (k' = f)) as [->|Hne].
    + exfalso. apply Hno. eapply effect_touches_index; eauto.
    + now rewrite lookup_delete_ne.
Qed.

Lemma untouched_records (lines : list string) (st : replay) (k : string) :
  Forall (fun line => ~ touches_record line k) lines ->
  dataById (fold_left (treat_datum p) lines st) !! k = dataById st !! k.
Proof.
  intros H. revert st. induction H as [|line lines Hline _ IH]; intros st; [reflexivity|].
  cbn [fold_left]. rewrite IH. now apply untouched_record.
Qed.

Lemma untouched_indexes (lines : list string) (st : replay) (f : string) :
  Forall (fun line => ~ touches_index line f) lines ->
  indexes (fold_left (treat_datum p) lines st) !! f = indexes st !! f.
Proof.
  intros H. revert st. induction H as [|line lines Hline _ IH]; intros st; [reflexivity|].
  cbn [fold_left]. rewrite IH. now apply untouched_index.
Qed.

(** ** The corruption threshold *)

Lemma corrupt_effect (line : string) :
  corrupt line = match line_effect line with Normal _ => false | Throw _ => true end.
Proof.
  unfold Persistence.corrupt. rewrite try_datum_effect. now destruct (line_effect line).
Qed.

Lemma treat_datum_corrupt (st : replay) (line : string) :
  corrupt line = true ->
  treat_datum p st line = Replay (dataById st) (indexes st) (corruptItems st + 1).
Proof.
  rewrite corrupt_effect, treat_datum_effect. now destruct (line_effect line).
Qed.

Lemma treat_datum_sound (st : replay) (line : string) :
  corrupt line = false -> corruptItems (treat_datum p st line) = corruptItems st.
Proof.
  rewrite corrupt_effect, treat_datum_effect. now destruct (line_effect line).
Qed.

(** A line acts on the maps alone: the counter does not feed back. *)
Lemma treat_datum_maps (st st' : replay) (line : string) :
  dataById st = dataById st' -> indexes st = indexes st' ->
  dataById (treat_datum p st line) = dataById (treat_datum p st' line) /\
  indexes (treat_datum p st line) = indexes (treat_datum p st' line).
Proof.
  intros Hd Hi. rewrite !treat_datum_effect.
  destruct (line_effect line); cbn [dataById indexes]; rewrite Hd, Hi; split; reflexivity.
Qed.

Lemma corrupt_counter (lines : list string) (st : replay) :
  corruptItems (fold_left (treat_datum p) lines st)
  = (corruptItems st + Z.of_nat (corrupt_count lines))%Z.
Proof.
  revert st. induction lines as [|line lines IH]; intros st.
  - cbn. lia.
  - cbn [fold_left]. rewrite IH. unfold Persistence.corrupt_count. rewrite filter_cons.
    destruct (decide (corrupt line = true)) as [Hc|Hc].
    + rewrite (treat_datum_corrupt _ _ Hc). cbn [corruptItems length]. lia.
    + apply not_true_is_false in Hc. rewrite (treat_datum_sound _ _ Hc). lia.
Qed.

Lemma corrupt_lines_skipped (lines : list string) (st st' : replay) :
  dataById st = dataById st' -> indexes st = indexes st' ->
  dataById (fold_left (treat_datum p) lines st)
  = dataById (fold_left (treat_datum p) (filter (fun line => corrupt line = false) lines) st') /\
  indexes (fold_left (treat_datum p) lines st)
  = indexes (fold_left (treat_datum p) (filter (fun line => corrupt line = false) lines) st').
Proof.
  revert st st'. induction lines as [|line lines IH]; intros st st' Hd Hi.
  - split; assumption.
  - cbn [fold_left]. rewrite filter_cons.
    destruct (decide (corrupt line = false)) as [Hc|Hc].
    + cbn [fold_left]. apply IH; now apply treat_datum_maps.
    + apply not_false_is_true in Hc. rewrite (treat_datum_corrupt _ _ Hc).
      apply IH; assumption.
Qed.

Lemma split_not_empty (sep : Ascii.ascii) (s : string) : (0 < length (split sep s))%nat.
Proof.
  induction s as [|c s IH]; cbn [split]; [cbn; lia|].
  destruct (Ascii.eqb c sep); [cbn; lia|].
  destruct (split sep s); cbn in *; lia.
Qed.

Lemma Qgt_bool_spec (x y : Q) : Qgt_bool x y = true <-> (y < x)%Q.
Proof.
  unfold Qgt_bool. rewrite negb_true_iff. split.
  - intros H. apply Qnot_le_lt. intros Hle. apply Qle_bool_iff in Hle. congruence.
  - intros H. destruct (Qle_bool x y) eqn:E; [|reflexivity].
    apply Qle_bool_iff in E. exfalso. exact (Qlt_not_le _ _ H E).
Qed.

Lemma treatRawData_cases (rawData : string) :
  let lines := split LF rawData in
  let good := fold_left (treat_datum p) (filter (fun line => corrupt line = false) lines)
                        replay_start in
  treatRawData p rawData =
  if Qgt_bool (corrupt_ratio lines) (corruptAlertThreshold p)
  then Throw (Error (corrupt_message (corruptAlertThreshold p)))
  else Normal (Treated (Object_values (dataById good)) (indexes good)).
Proof.
  intros lines good. unfold Persistence.treatRawData. fold lines.
  pose proof (split_not_empty LF rawData) as Hlen. fold lines in Hlen.
  apply Nat.ltb_lt in Hlen. rewrite Hlen. cbn [andb].
  rewrite corrupt_counter. cbn [replay_start corruptItems].
  replace (-1 + Z.of_nat (corrupt_count lines))%Z
    with (Z.of_nat (corrupt_count lines) - 1)%Z by lia.
  fold (corrupt_ratio lines).
  destruct (Qgt_bool _ _); [reflexivity|].
  destruct (corrupt_lines_skipped lines replay_start replay_start eq_refl eq_refl) as [-> ->].
  reflexivity.
Qed.

(** C4: the corrupt counter starts at -1 and ends at the number of
    lines that do not parse, less one.  The replay fails with the
    data-integrity error if and only if that counter divided by the
    number of lines is strictly greater than the threshold; otherwise,
    and in particular when the quotient equals the threshold, it
    returns the state built from the lines that parse, the others being
    skipped.  A failure returns no state at all.  The threshold of a
    constructed object is the option given, 0.1 when none is. *)
Theorem treatRawData_corruption_threshold (rawData : string) :
  let lines := split LF rawData in
  let good := fold_left (treat_datum p) (filter (fun line => corrupt line = false) lines)
                        replay_start in
  corruptItems replay_start = (-1)%Z /\
  corruptItems (fold_left (treat_datum p) lines replay_start)
    = (Z.of_nat (corrupt_count lines) - 1)%Z /\
  ((corruptAlertThreshold p < corrupt_ratio lines)%Q <->
     treatRawData p rawData = Throw (Error (corrupt_message (corruptAlertThreshold p)))) /\
  ((corrupt_ratio lines <= corruptAlertThreshold p)%Q <->
     treatRawData p rawData = Normal (Treated (Object_values (dataById good)) (indexes good))) /\
  ((corrupt_ratio lines == corruptAlertThreshold p)%Q ->
     treatRawData p rawData = Normal (Treated (Object_values (dataById good)) (indexes good))) /\
  (forall path_join uid proc o p',
     Persistence.constructor path_join uid proc o = Normal p' ->
     corruptAlertThreshold p' = default (1 # 10) (opt_corruptAlertThreshold o)).
Proof.
  intros lines good. pose proof (treatRawData_cases rawData) as Hcases.
  cbv zeta in Hcases. fold lines in Hcases. fold good in Hcases.
  split; [reflexivity|]. split; [rewrite corrupt_counter; cbn; lia|].
  assert (Hdefault : forall path_join uid proc o p',
             Persistence.constructor path_join uid proc o = Normal p' ->
             corruptAlertThreshold p' = default (1 # 10) (opt_corruptAlertThreshold o))
    by (intros; eapply constructor_threshold; eassumption).
  destruct (Qgt_bool (corrupt_ratio lines) (corruptAlertThreshold p)) eqn:E.
  - apply Qgt_bool_spec in E. rewrite Hcases.
    split; [tauto|]. split; [|split; [|exact Hdefault]].
    + split; [|discriminate]. intros Hle. exfalso. exact (Qlt_not_le _ _ E Hle).
    + intros Heq. exfalso. apply (Qlt_not_le _ _ E). rewrite Heq. apply Qle_refl.
  - assert (Hle : (corrupt_ratio lines <= corruptAlertThreshold p)%Q).
    { apply Qnot_lt_le. intros Hlt. apply Qgt_bool_spec in Hlt. congruence. }
    rewrite Hcases. split; [|split; [tauto|split; [tauto|exact Hdefault]]].
    split; [|discriminate]. intros Hlt. exfalso. exact (Qlt_not_le _ _ Hlt Hle).
Qed.

(** ** The streaming variant *)

Lemma on_data_treat_datum (s : stream_replay) (line : string) :
  on_data p s line =
  let st := treat_datum p (to_replay s) line in
  StreamReplay (dataById st) (indexes st) (corruptItems st) (S (sLength s)) (sCalls s).
Proof.
  unfold Persistence.on_data, Persistence.treat_datum, Persistence.try_datum, to_replay.
  cbn [dataById indexes corruptItems].
  match goal with
  | |- match ?c with Normal _ => _ | Throw _ => _ end = _ => destruct c as [[d i]|e]
  end; reflexivity.
Qed.

Lemma stream_lines (lines : list string) (s : stream_replay) :
  fold_left (handle p) (map OnData lines) s =
  let st := fold_left (treat_datum p) lines (to_replay s) in
  StreamReplay (dataById st) (indexes st) (corruptItems st)
               (length lines + sLength s) (sCalls s).
Proof.
  revert s. induction lines as [|line lines IH]; intros s.
  - now destruct s.
  - cbn [map fold_left Persistence.handle]. rewrite IH, on_data_treat_datum.
    cbn [to_replay sDataById sIndexes sCorruptItems sLength sCalls length].
    replace (length lines + S (sLength s))%nat with (S (length lines + sLength s)) by lia.
    now destruct (treat_datum p (to_replay s) line).
Qed.

(** C7: on the line stream of a text, the streaming replay invokes its
    callback once, with the result of the whole-text replay of that
    text when that one returns and with its error when that one throws;
    on any stream, failing ones included, the callback is invoked
    exactly once. *)
Theorem treatRawStream_agrees (rawData : string) (rawStream : raw_stream) :
  treatRawStream p (StreamOf rawData) =
    [match treatRawData p rawData with
     | Normal result => CbResult result
     | Throw err => CbError err
     end] /\
  length (treatRawStream p rawStream) = 1%nat.
Proof.
  split.
  - unfold Persistence.treatRawStream, byline. rewrite fold_left_app, stream_lines.
    cbn [fold_left Persistence.handle]. unfold Persistence.on_end, Persistence.treatRawData.
    cbn [sLength sCorruptItems sDataById sIndexes stream_start to_replay].
    rewrite Nat.add_0_r. fold replay_start.
    destruct (_ && _); reflexivity.
  - unfold Persistence.treatRawStream. destruct rawStream as [text|lines err]; unfold byline;
      rewrite fold_left_app, stream_lines; cbn [fold_left Persistence.handle].
    + unfold Persistence.on_end. destruct (_ && _); reflexivity.
    + reflexivity.
Qed.


(** ** Lines that match no rule *)

Lemma unidentified_effect (line : string) (doc : value) :
  deserialize (beforeDeserialization p line) = Normal doc ->
  not_nullish doc = true ->
  (forall id, get doc "_id" = Normal id -> truthy id = false) ->
  match line_effect line with
  | Normal (SetRecord _ _) | Normal (DeleteRecord _) => False
  | _ => True
  end /\
  (creation_guard doc = false ->
   (forall field, get doc "$$indexRemoved" <> Normal (Str field)) ->
   line_effect line = Normal NoEffect).
Proof.
  intros Hdoc Hnn Hid. unfold Persistence.line_effect. rewrite Hdoc. cbn [bind].
  destruct (get doc "_id") as [id|x] eqn:Eid.
  - cbn [bind]. rewrite (Hid id eq_refl). split.
    + destruct (creation_guard doc).
      * destruct (get doc "$$indexCreated") as [ic|]; cbn [bind]; [|exact I].
        destruct (get ic "fieldName") as [fn|]; cbn [bind]; [|exact I].
        destruct (ToPropertyKey fn); cbn [bind]; exact I.
      * destruct (get doc "$$indexRemoved") as [[]|]; cbn [bind]; exact I.
    + intros -> Hir.
      destruct (get doc "$$indexRemoved") as [ir|x] eqn:Eir; cbn [bind].
      * destruct ir; try reflexivity. exfalso. now apply (Hir s).
      * destruct doc; discriminate.
  - destruct doc; discriminate.
Qed.

(** C10, amended: a line that deserializes to a value other than
    [null] or [undefined] and carries no truthy identifier never changes
    the records, whether it carries a deletion marker or not; if it
    carries no index-creation directive with a field name and no
    index-removal directive either, it changes nothing at all: the
    maps and the corrupt counter are as before, in the whole-text and in
    the streaming replay (which only counts the line). *)
Theorem unmatched_line_is_dropped (line : string) (doc : value)
    (st : replay) (s : stream_replay) :
  deserialize (beforeDeserialization p line) = Normal doc ->
  not_nullish doc = true ->
  (forall id, get doc "_id" = Normal id -> truthy id = false) ->
  (dataById (treat_datum p st line) = dataById st /\
   sDataById (on_data p s line) = sDataById s) /\
  (creation_guard doc = false ->
   (forall field, get doc "$$indexRemoved" <> Normal (Str field)) ->
   treat_datum p st line = st /\
   on_data p s line =
     StreamReplay (sDataById s) (sIndexes s) (sCorruptItems s) (S (sLength s)) (sCalls s)).
Proof.
  intros Hdoc Hnn Hid.
  destruct (unidentified_effect line doc Hdoc Hnn Hid) as [Hrec Hnone].
  split.
  - rewrite on_data_treat_datum. cbv zeta. cbn [sDataById].
    rewrite !treat_datum_effect.
    destruct (line_effect line) as [[| | | |]|x]; try contradiction;
      split; reflexivity.
  - intros Hguard Hremoved. specialize (Hnone Hguard Hremoved).
    rewrite on_data_treat_datum. cbv zeta. rewrite !treat_datum_effect, Hnone.
    cbn [apply_effect fst snd to_replay dataById indexes corruptItems].
    split; [now destruct st | reflexivity].
Qed.

(** A line that deserializes to [null] is counted as corrupt. *)
Lemma null_line_is_corrupt (line : string) (st : replay) :
  deserialize (beforeDeserialization p line) = Normal Null ->
  treat_datum p st line = Replay (dataById st) (indexes st) (corruptItems st + 1).
Proof.
  intros Hdoc. unfold Persistence.treat_datum, Persistence.try_datum. now rewrite Hdoc.
Qed.

(** ** The order of the lines *)

(** C3, at the failing input: a primary-record line whose identifier is
    [__proto__].  The line deserializes and is not counted as corrupt,
    but the assignment [dataById[doc._id] = doc] creates no property:
    the replay is as if the line were not there, and a log made of that
    line alone loads as an empty store. *)
Theorem treatRawData_loses_proto_record (line : string) (doc : value) :
  record_line line "__proto__" doc ->
  has_newline line = false ->
  (0 <= corruptAlertThreshold p)%Q ->
  (forall st, treat_datum p st line = st) /\
  treatRawData p line = Normal (Treated [] ∅).
Proof.
  intros Hrec Hline Hthreshold.
  assert (Hdrop : forall st, treat_datum p st line = st).
  { intros st. rewrite treat_datum_effect, (record_line_effect _ _ _ Hrec).
    cbn [apply_effect fst snd]. rewrite set_property_proto. now destruct st. }
  split; [exact Hdrop|].
  unfold Persistence.treatRawData. rewrite (split_one_line _ Hline).
  cbn [fold_left length]. fold (treat_datum p replay_start line). rewrite Hdrop.
  cbn [replay_start corruptItems dataById indexes Nat.ltb Nat.leb andb].
  destruct (Qgt_bool _ _) eqn:E.
  - apply Qgt_bool_spec in E. exfalso. apply (Qlt_not_le _ _ E).
    eapply Qle_trans; [|exact Hthreshold]. discriminate.
  - unfold Object_values. now rewrite map_to_list_empty.
Qed.

(** X15: on a log that loads, what the result holds for a key other
    than [__proto__] is decided by the last line that reaches that key.
    The returned documents are the values of the map of records, and
    the returned directives are the map of directives.  A
    primary-record line for the identifier [k] followed by no other
    line for [k] has its document returned, whatever came before; a
    tombstone line for [k] followed by no other line for [k] leaves no
    record under [k], even if a record for [k] came before; an
    index-creation directive for the field [f] followed by no other
    directive for [f] has its specification returned under [f]; an
    index-removal directive leaves [f] absent; a key that no line
    reaches is absent. *)
Theorem replay_last_line_wins (rawData : string) (before after : list string)
    (line : string) (result : treated) :
  treatRawData p rawData = Normal result ->
  split LF rawData = before ++ line :: after ->
  let st := fold_left (treat_datum p) (split LF rawData) replay_start in
  (forall doc, doc ∈ data result <-> exists k, dataById st !! k = Some doc) /\
  treated_indexes result = indexes st /\
  (forall k doc, k <> "__proto__" -> record_line line k doc ->
     Forall (fun l => ~ touches_record l k) after ->
     dataById st !! k = Some doc /\ doc ∈ data result) /\
  (forall k, tombstone_line line k ->
     Forall (fun l => ~ touches_record l k) after -> dataById st !! k = None) /\
  (forall f spec, f <> "__proto__" -> index_created_line line f spec ->
     Forall (fun l => ~ touches_index l f) after ->
     treated_indexes result !! f = Some spec) /\
  (forall f, index_removed_line line f ->
     Forall (fun l => ~ touches_index l f) after -> treated_indexes result !! f = None) /\
  (forall k, Forall (fun l => ~ touches_record l k) (split LF rawData) ->
     dataById st !! k = None) /\
  (forall f, Forall (fun l => ~ touches_index l f) (split LF rawData) ->
     treated_indexes result !! f = None).
Proof.
  intros Hload Hsplit st.
  assert (Hresult : data result = Object_values (dataById st) /\
                    treated_indexes result = indexes st).
  { unfold Persistence.treatRawData in Hload. fold st in Hload.
    destruct (_ && _); [discriminate|]. injection Hload as <-. split; reflexivity. }
  destruct Hresult as [Hdata Hindexes].
  assert (Helem : forall doc, doc ∈ data result <-> exists k, dataById st !! k = Some doc)
    by (intros doc; rewrite Hdata; apply Object_values_elem).
  rewrite Hindexes.
  split; [exact Helem|]. split; [reflexivity|].
  assert (Hnone : (forall k, Forall (fun l => ~ touches_record l k) (split LF rawData) ->
                     dataById st !! k = None) /\
                  (forall f, Forall (fun l => ~ touches_index l f) (split LF rawData) ->
                     indexes st !! f = None)).
  { subst st. split.
    - intros k Hall. rewrite untouched_records by assumption. apply lookup_empty.
    - intros f Hall. rewrite untouched_indexes by assumption. apply lookup_empty. }
  destruct Hnone as [Hnorecord Hnoindex].
  subst st. rewrite Hsplit in *. rewrite fold_left_app in *. cbn [fold_left] in *.
  set (st0 := fold_left (treat_datum p) before replay_start) in *.
  split; [|split; [|split; [|split; [|split; assumption]]]].
  - intros k doc Hk Hrec Hafter.
    assert (Hfound : dataById (fold_left (treat_datum p) after (treat_datum p st0 line)) !! k
                     = Some doc).
    { rewrite untouched_records by assumption.
      rewrite treat_datum_effect, (record_line_effect _ _ _ Hrec).
      now apply lookup_set_property_eq. }
    split; [exact Hfound|]. apply Helem. eauto.
  - intros k Htomb Hafter. rewrite untouched_records by assumption.
    rewrite treat_datum_effect, (tombstone_line_effect _ _ Htomb).
    apply lookup_delete_eq.
  - intros f spec Hf Hic Hafter. rewrite untouched_indexes by assumption.
    rewrite treat_datum_effect, (index_created_line_effect _ _ _ Hic).
    now apply lookup_set_property_eq.
  - intros f Hir Hafter. rewrite untouched_indexes by assumption.
    rewrite treat_datum_effect, (index_removed_line_effect _ _ Hir).
    apply lookup_delete_eq.
Qed.

End ReplayFacts.

(** * Properties of the compaction *)

Section CompactionFacts.
Variable dirname : string -> string.
Variable serialize : value -> string.

Local Abbreviation crashSafeWriteFileLines := (Storage.crashSafeWriteFileLines dirname).
Local Abbreviation compaction_lines := (Persistence.compaction_lines serialize).
Local Abbreviation persistCachedDatabase := (Persistence.persistCachedDatabase dirname serialize).

(** C5, amended: in in-memory-only mode the compaction does nothing.
    In durable mode it hands to the crash-safe rewrite exactly one line
    per document of the datastore followed by one line per index whose
    field is not [_id], so their number is the number of documents plus
    the number of those indexes; its outcome and its effect on the file
    system are those of that rewrite, which on success leaves these
    lines in the datafile; and [compaction.done] is emitted if and only
    if the rewrite succeeded. *)
Theorem persistCachedDatabase_compacts (p : Persistence.t) (io : rewrite_io)
    (db : Datastore.t) (w : world) :
  let lines := compaction_lines p db in
  let run := persistCachedDatabase p io db w in
  (inMemoryOnly p = true -> run = (Callback None, db, w)) /\
  (inMemoryOnly p = false -> forall f, filename p = Some f ->
     let written := crashSafeWriteFileLines f lines io w in
     lines = map (fun doc => afterSerialization p (serialize doc)) (Datastore.getAllData db)
             ++ map (fun fieldName =>
                       afterSerialization p
                         (serialize (indexCreated_doc fieldName
                            (default (Index false false) (Datastore.indexes db !! fieldName)))))
                    (filter (fun fieldName => fieldName <> "_id")
                            (Object_keys (Datastore.indexes db))) /\
     length lines = (length (Datastore.getAllData db)
                     + length (filter (fun fieldName => fieldName <> "_id")
                                      (Object_keys (Datastore.indexes db))))%nat /\
     run.1.1 = written.1 /\ run.2 = written.2 /\
     (written.1 = Callback None ->
        files run.2 !! f = Some (file_text lines)) /\
     (written.1 = Callback None <->
        Datastore.emitted run.1.2 = Datastore.emitted db ++ ["compaction.done"]) /\
     (written.1 <> Callback None <-> Datastore.emitted run.1.2 = Datastore.emitted db)).
Proof.
  intros lines run. subst run. unfold Persistence.persistCachedDatabase. split.
  - intros ->. reflexivity.
  - intros -> f ->. fold lines. set (written := crashSafeWriteFileLines f lines io w).
    assert (Hgrow : Datastore.emitted db ++ ["compaction.done"] <> Datastore.emitted db).
    { intros E. apply (f_equal length) in E. rewrite length_app in E. cbn in E. lia. }
    split; [reflexivity|]. split.
    { subst lines. unfold Persistence.compaction_lines.
      now rewrite length_app, !length_map. }
    pose proof (crashSafeWriteFileLines_success dirname f lines io w) as Hok.
    fold written in Hok.
    destruct written as [[[e|]|x] w']; cbn [fst snd Datastore.emit Datastore.emitted] in *.
    all: repeat split; intros; try discriminate; try congruence; auto.
Qed.
End CompactionFacts.

(** * The model on concrete inputs *)

Section Runs.
Import Sample.

Local Abbreviation treat_datum := (Persistence.treat_datum deserialize key_of_nonstring).
Local Abbreviation treatRawData := (Persistence.treatRawData deserialize key_of_nonstring).
Local Abbreviation constructor := (Persistence.constructor path_join uid).
Local Abbreviation persistCachedDatabase := (Persistence.persistCachedDatabase dirname serialize).

(* Refutes that a concrete line is a record or tombstone line for a key. *)
Ltac refute_touch :=
  let doc := fresh "doc" in let Hdoc := fresh "Hdoc" in let id := fresh "id" in
  let Hid := fresh "Hid" in let Ht := fresh "Ht" in let Hk := fresh "Hk" in
  intros (doc & Hdoc & id & Hid & Ht & Hk);
  vm_compute in Hdoc;
  first [ discriminate Hdoc
        | injection Hdoc as <-; vm_compute in Hid; injection Hid as <-;
          first [ discriminate Ht | vm_compute in Hk; discriminate Hk ] ].

(** C2, on [crashed_disk]: the temp file is promoted. *)
Lemma ensureDatafileIntegrity_recovers_run :
  (ensureDatafileIntegrity "menu.db" (IntegrityIO None None) crashed_disk).1 = Callback None /\
  files (ensureDatafileIntegrity "menu.db" (IntegrityIO None None) crashed_disk).2 !! "menu.db"
    = files crashed_disk !! "menu.db~" /\
  files (ensureDatafileIntegrity "menu.db" (IntegrityIO None None) crashed_disk).2 !! "menu.db~"
    = None.
Proof.
  pose proof (ensureDatafileIntegrity_recovers "menu.db" (IntegrityIO None None) crashed_disk)
    as H.
  cbv zeta in H. destruct H as (_ & Hpromote & _).
  apply Hpromote; [vm_compute; reflexivity | vm_compute; eauto | reflexivity].
Defined.

(** C8: [EISDIR] on opening a directory is a success; [EPERM] on the
    [fsync] of a file is an error. *)
Lemma flushToStorage_unsupported_run :
  (flushToStorage (FlushOpts "." true) (FlushIO (Some (SysError "EISDIR")) None None) disk).1
    = Callback None /\
  (flushToStorage (FlushFile "menu.db") (FlushIO None (Some (SysError "EPERM")) None) disk).1
    = Callback (Some (FlushError (Some (SysError "EPERM")) None)).
Proof.
  split.
  - destruct (flushToStorage_unsupported_is_success
                (FlushOpts "." true) (FlushIO (Some (SysError "EISDIR")) None None) disk)
      as [Hopen _].
    apply (Hopen (SysError "EISDIR") eq_refl). split; reflexivity.
  - destruct (flushToStorage_unsupported_is_success
                (FlushFile "menu.db") (FlushIO None (Some (SysError "EPERM")) None) disk)
      as [_ Hfsync].
    apply (Hfsync (SysError "EPERM") eq_refl eq_refl). intros [_ Hdir]. discriminate Hdir.
Defined.

(** C3: the log made of the record line of [__proto__] loads as an
    empty store. *)
Lemma treatRawData_loses_proto_record_run :
  treatRawData durable "=__proto__" = Normal (Treated [] ∅).
Proof.
  destruct (treatRawData_loses_proto_record deserialize key_of_nonstring durable
              "=__proto__" (Obj [("_id", Str "__proto__"); ("rev", Num 1)]))
    as [_ Hload].
  - split; [|reflexivity]. split; [reflexivity|].
    exists (Str "__proto__"). repeat split.
  - reflexivity.
  - discriminate.
  - exact Hload.
Defined.

(** On [menu_log], which loads: the second revision of [a] is among the
    documents returned, no record is left under [b], and the directive
    for [f] is returned. *)
Lemma replay_last_line_wins_run :
  exists result,
    treatRawData durable menu_log = Normal result /\
    Obj [("_id", Str "a"); ("rev", Num 2)] ∈ data result /\
    dataById (fold_left (treat_datum durable) (split LF menu_log) replay_start) !! "b" = None /\
    treated_indexes result !! "f"
    = Some (Obj [("fieldName", Str "f"); ("unique", Bool false); ("sparse", Bool false)]).
Proof.
  destruct (treatRawData durable menu_log) as [result|e] eqn:Hload;
    [|vm_compute in Hload; discriminate Hload].
  exists result. split; [reflexivity|]. split; [|split].
  - pose proof (replay_last_line_wins deserialize key_of_nonstring durable menu_log
                  ["=a"; "=b"] ["-b"; "+f"; "~g"; ""] "#a" result Hload eq_refl) as H.
    cbv zeta in H. destruct H as (_ & _ & Hrecord & _).
    apply (Hrecord "a").
    + discriminate.
    + split; [|reflexivity]. split; [reflexivity|].
      exists (Str "a"). repeat split.
    + repeat constructor; refute_touch.
  - pose proof (replay_last_line_wins deserialize key_of_nonstring durable menu_log
                  ["=a"; "=b"; "#a"] ["+f"; "~g"; ""] "-b" result Hload eq_refl) as H.
    cbv zeta in H. destruct H as (_ & _ & _ & Htombstone & _).
    apply Htombstone.
    + exists (Obj [("_id", Str "b"); ("$$deleted", Bool true)]).
      split; [|reflexivity]. split; [reflexivity|].
      exists (Str "b"). repeat split.
    + repeat constructor; refute_touch.
  - pose proof (replay_last_line_wins deserialize key_of_nonstring durable menu_log
                  ["=a"; "=b"; "#a"; "-b"] ["~g"; ""] "+f" result Hload eq_refl) as H.
    cbv zeta in H. destruct H as (_ & _ & _ & _ & Hcreated & _).
    apply Hcreated.
    + discriminate.
    + exists (Obj [("$$indexCreated",
                    Obj [("fieldName", Str "f"); ("unique", Bool false);
                         ("sparse", Bool false)])]).
      split; [split; [reflexivity|exists Undefined; split; reflexivity]|].
      split; [reflexivity|]. split; [reflexivity|].
      exists (Str "f"). split; reflexivity.
    + repeat constructor.
      * intros [(spec & doc & [Hdoc _] & Hguard & _)|(doc & [Hdoc _] & _ & Hremoved)].
        -- vm_compute in Hdoc. injection Hdoc as <-. discriminate Hguard.
        -- vm_compute in Hdoc. injection Hdoc as <-. discriminate Hremoved.
      * intros [(spec & doc & [Hdoc _] & _)|(doc & [Hdoc _] & _)];
          vm_compute in Hdoc; discriminate Hdoc.
Defined.

(** C4: one counted line in ten is exactly the default threshold, and
    the log loads; one in nine is above it, and the load fails. *)
Lemma treatRawData_corruption_threshold_run :
  (exists result, treatRawData durable log_at_threshold = Normal result) /\
  treatRawData durable log_above_threshold = Throw (Error (corrupt_message (1 # 10))).
Proof.
  split.
  - eexists.
    apply (treatRawData_corruption_threshold deserialize key_of_nonstring durable
             log_at_threshold).
    vm_compute. reflexivity.
  - apply (treatRawData_corruption_threshold deserialize key_of_nonstring durable
             log_above_threshold).
    vm_compute. reflexivity.
Defined.

(** C5 (amended), on [menu_db]: three lines, and the notification. *)
Lemma persistCachedDatabase_compacts_run :
  length (compaction_lines serialize durable menu_db) = 3%nat /\
  Datastore.emitted (persistCachedDatabase durable rewrite_ok menu_db disk).1.2
    = ["compaction.done"].
Proof.
  pose proof (persistCachedDatabase_compacts dirname serialize durable rewrite_ok menu_db disk)
    as H.
  cbv zeta in H. destruct H as [_ H].
  destruct (H eq_refl "menu.db" eq_refl) as (_ & Hlen & _ & _ & _ & Hemit & _).
  split.
  - rewrite Hlen. vm_compute. reflexivity.
  - apply Hemit. vm_compute. reflexivity.
Defined.

(** C5, as stated: an in-memory store with one record compacts to
    nothing: no call is made, no file exists afterwards. *)
Lemma in_memory_compaction_writes_nothing :
  length (Datastore.getAllData
            (Datastore.Make true None [Obj [("_id", Str "a"); ("rev", Num 1)]] ∅ [])) = 1%nat /\
  persistCachedDatabase in_memory rewrite_ok
    (Datastore.Make true None [Obj [("_id", Str "a"); ("rev", Num 1)]] ∅ []) (World ∅ [])
  = (Callback None,
     Datastore.Make true None [Obj [("_id", Str "a"); ("rev", Num 1)]] ∅ [],
     World ∅ []).
Proof. split; reflexivity. Qed.

(** C6 (amended): a durable store on [menu.db~] is refused. *)
Lemma constructor_rejects_run :
  exists message,
    constructor process
      (Options (Datastore.Make false (Some "menu.db~") [] ∅ []) None None None None)
    = Throw (Error message).
Proof.
  apply constructor_rejects. left. split; [reflexivity|].
  exists "menu.db~". split; [reflexivity|]. exists "menu.db". reflexivity.
Defined.

(** C6, as stated: in in-memory mode the same name is accepted. *)
Lemma in_memory_store_accepts_reserved_suffix :
  ends_with_reserved_suffix "menu.db~" /\
  constructor process
    (Options (Datastore.Make true (Some "menu.db~") [] ∅ []) None None None None)
  = Normal (Persistence.Make true (Some "menu.db~") (1 # 10) (fun s => s) (fun s => s)).
Proof.
  split; [exists "menu.db"; reflexivity|]. vm_compute. reflexivity.
Qed.

(** C10 (amended): the line [{}] leaves the replay as it was. *)
Lemma unmatched_line_is_dropped_run :
  treat_datum durable replay_start "{}" = replay_start.
Proof.
  assert (Hnoid : forall id, get (Obj []) "_id" = Normal id -> truthy id = false).
  { intros id [= <-]. reflexivity. }
  destruct (unmatched_line_is_dropped deserialize key_of_nonstring durable "{}" (Obj [])
              replay_start stream_start eq_refl eq_refl Hnoid) as [_ H].
  apply H; [reflexivity|]. intros field. discriminate.
Defined.

(** C10, as stated: the line [null] deserializes, carries no identifier
    and no directive, and is counted as corrupt. *)
Lemma null_line_counts_as_corrupt :
  deserialize (beforeDeserialization durable "null") = Normal Null /\
  (forall id, get Null "_id" = Normal id -> truthy id = false) /\
  creation_guard Null = false /\
  (forall field, get Null "$$indexRemoved" <> Normal (Str field)) /\
  corruptItems (treat_datum durable replay_start "null") = (corruptItems replay_start + 1)%Z.
Proof.
  split; [reflexivity|]. split; [discriminate|]. split; [reflexivity|].
  split; [discriminate|]. reflexivity.
Qed.

End Runs.

(** * Further properties of the storage layer *)

Section MoreStorageFacts.
Variable dirname : string -> string.

Local Abbreviation crashSafeWriteFileLines := (Storage.crashSafeWriteFileLines dirname).

(** The file system after a rewrite, in every run: untouched, with a
    temp file of the system's choosing, without temp file, or with the
    content of the temp file in the target and no temp file.  A
    successful run ends in the last, with the new text; a failed run
    ends there only when the failure is that of the last flush, or when
    the write stream had failed. *)
Lemma rewrite_files_cases (filename : string) (lines : list string)
    (io : rewrite_io) (w : world) :
  let temp := filename +:+ "~" in
  let run := crashSafeWriteFileLines filename lines io w in
  let renamed content := <[filename := content]> (delete temp (files w)) in
  (run.1 = Callback None /\ files run.2 = renamed (file_text lines)) \/
  (run.1 <> Callback None /\
   (files run.2 = files w \/
    (exists s, files run.2 = <[temp := s]> (files w)) \/
    files run.2 = delete temp (files w) \/
    (files run.2 = renamed (file_text lines) /\
     write_temp io = WriteOk /\ rename_temp io = None /\
     run.1 = (flushToStorage (FlushOpts (dirname filename) true) (flush_dir_after io) w).1) \/
    (exists partial e,
       write_temp io = WriteFails (Some partial) e /\
       run.1 = Callback (Some e) /\ files run.2 = renamed partial))).
Proof.
  cbv zeta. rewrite crashSafeWriteFileLines_eq.
  pose proof (steps_before_files dirname filename io w) as Hbefore.
  destruct (chain (Storage.steps_before dirname filename io) w) as [[[e|]|x] w1];
    cbn [fst snd] in *.
  1,3: right; split; [discriminate|left; exact Hbefore].
  destruct (write_temp io) as [|e|remains e] eqn:Hwrite.
  - match goal with
    | |- context [chain _ ?w0] =>
        destruct (steps_after_cases dirname filename io w0)
          as [[Hfail Hfiles]|(content & Htemp & Hfiles & Hrename & Hout)]
    end; cbn [files set_files log] in *; rewrite Hbefore in *.
    + right. split; [exact Hfail|]. right. left. eauto.
    + rewrite lookup_insert_eq in Htemp. injection Htemp as <-.
      rewrite delete_insert_eq in Hfiles.
      rewrite (flushToStorage_result _ _ _ w) in Hout.
      destruct (chain _ _) as [[[e|]|x] w2]; cbn [fst snd] in *.
      * right. split; [discriminate|]. do 3 right. left. repeat split; assumption.
      * left. split; [reflexivity|assumption].
      * right. split; [discriminate|]. do 3 right. left. repeat split; assumption.
  - right. split; [discriminate|]. left. exact Hbefore.
  - right. split; [discriminate|].
    match goal with
    | |- context [chain _ ?w0] =>
        destruct (steps_after_cases dirname filename io w0)
          as [[Hfail Hfiles]|(content & Htemp & Hfiles & Hrename & Hout)]
    end; cbn [files set_files log fst snd] in *; rewrite Hbefore in *.
    + rewrite Hfiles. destruct remains as [s|]; [right; left; eauto|right; right; left; reflexivity].
    + do 4 right. destruct remains as [s|].
      * rewrite lookup_insert_eq in Htemp. injection Htemp as <-.
        rewrite delete_insert_eq in Hfiles. exists s, e. repeat split. exact Hfiles.
      * rewrite lookup_delete_eq in Htemp. discriminate Htemp.
Qed.

(** X1: a rewrite touches the target and its temp file only, and a
    successful one leaves the new text in the target and no temp file
    behind, even if a stale one was there. *)
Theorem crashSafeWriteFileLines_leaves_no_temp (filename : string) (lines : list string)
    (io : rewrite_io) (w : world) :
  let run := crashSafeWriteFileLines filename lines io w in
  (forall path, path <> filename -> path <> filename +:+ "~" ->
     files run.2 !! path = files w !! path) /\
  (run.1 = Callback None ->
     files run.2 !! filename = Some (file_text lines) /\
     files run.2 !! (filename +:+ "~") = None /\
     files run.2 = <[filename := file_text lines]> (delete (filename +:+ "~") (files w))).
Proof.
  intros run. pose proof (rewrite_files_cases filename lines io w) as H.
  cbv zeta in H. fold run in H.
  pose proof (temp_name_fresh filename) as Hfresh. split.
  - intros path Hf Ht.
    destruct H as [[_ ->]|[_ [->|[[s ->]|[->|[[-> _]|(s & e & _ & _ & ->)]]]]]];
      rewrite ?lookup_insert_ne, ?lookup_delete_ne by congruence; reflexivity.
  - intros Hok. destruct H as [[_ ->]|[Hfail _]]; [|contradiction].
    split; [apply lookup_insert_eq|]. split; [|reflexivity].
    rewrite lookup_insert_ne by congruence. apply lookup_delete_eq.
Qed.

(** X2: a datafile that exists before a rewrite still exists after it,
    whatever fails: the startup check that follows finds it, changes
    nothing and reports no error.  The datafile then holds its previous
    content, or the complete new text (only when the write of the temp
    file succeeded), or, when the write stream failed, what that write
    left in the temp file. *)
Theorem rewrite_then_integrity_check (filename : string) (lines : list string)
    (io : rewrite_io) (io' : integrity_io) (w : world) :
  is_Some (files w !! filename) ->
  let w1 := (crashSafeWriteFileLines filename lines io w).2 in
  let check := ensureDatafileIntegrity filename io' w1 in
  check.1 = Callback None /\
  files check.2 = files w1 /\
  (files check.2 !! filename = files w !! filename \/
   (write_temp io = WriteOk /\ files check.2 !! filename = Some (file_text lines)) \/
   (exists partial e,
      write_temp io = WriteFails (Some partial) e /\
      files check.2 !! filename = Some partial)).
Proof.
  intros Hexists w1 check.
  pose proof (rewrite_files_cases filename lines io w) as H.
  cbv zeta in H. fold w1 in H.
  pose proof (temp_name_fresh filename) as Hfresh.
  pose proof (crashSafeWriteFileLines_eq dirname filename lines io w) as Heq.
  assert (Htarget : files w1 !! filename = files w !! filename \/
                    (write_temp io = WriteOk /\
                     files w1 !! filename = Some (file_text lines)) \/
                    (exists partial e,
                       write_temp io = WriteFails (Some partial) e /\
                       files w1 !! filename = Some partial)).
  { destruct H as [[Hok Hfiles]|[_ [->|[[s ->]|[->|[[-> [Hw _]]|(s & e & Hw & _ & ->)]]]]]];
      rewrite ?lookup_insert_eq, ?lookup_insert_ne, ?lookup_delete_ne by congruence; eauto.
    - right. left. split.
      + destruct (write_temp io) as [|e|remains e] eqn:Hw; [reflexivity| |];
          exfalso; subst w1; rewrite Heq in Hok;
          destruct (chain _ w) as [[[e'|]|x] w2]; cbn [fst] in Hok; discriminate Hok.
      + rewrite Hfiles. apply lookup_insert_eq.
    - right. right. eauto. }
  assert (Hstill : is_Some (files w1 !! filename)).
  { destruct Htarget as [-> |[[_ ->]|(s & e & _ & ->)]]; eauto. }
  subst check. unfold ensureDatafileIntegrity, Storage.exists_.
  rewrite bool_decide_eq_true_2 by assumption. cbn [fst snd files log].
  repeat split; assumption.
Qed.

(* Two worlds written differently. *)
Ltac same_world :=
  unfold log, set_files; cbn [fst snd files journal firstn app Nat.add];
  rewrite <- ?app_assoc; reflexivity.

(** X16: a rewrite whose write stream does not fail stops at the first
    step that fails, reports the failure of that step, and has made the
    calls of the protocol up to that step and no other.  The files are
    untouched by a failure before the write; a failure of the flush of
    the temp file or of the rename leaves the new text in the temp file
    and the target as it was; once the rename is done the temp file is
    gone, the target holds the new text, and the outcome is that of the
    last flush of the directory. *)
Theorem crashSafeWriteFileLines_stops_at_first_failure (filename : string)
    (lines : list string) (io : rewrite_io) (w : world) :
  let temp := filename +:+ "~" in
  let dir := FlushOpts (dirname filename) true in
  let target_exists := bool_decide (is_Some (files w !! filename)) in
  let r1 := (flushToStorage dir (flush_dir_before io) w).1 in
  let r2 := if target_exists
            then (flushToStorage (FlushFile filename) (flush_target io) w).1
            else Callback None in
  let r4 := (flushToStorage (FlushFile temp) (flush_temp io) w).1 in
  let r6 := (flushToStorage dir (flush_dir_after io) w).1 in
  let calls n := journal w ++ take n (protocol dirname filename lines target_exists) in
  let n := if target_exists then 3%nat else 2%nat in
  let written := <[temp := file_text lines]> (files w) in
  let run := crashSafeWriteFileLines filename lines io w in
  (r1 <> Callback None -> run = (r1, World (files w) (calls 1%nat))) /\
  (r1 = Callback None -> r2 <> Callback None -> run = (r2, World (files w) (calls n))) /\
  (r1 = Callback None -> r2 = Callback None ->
   (forall e, write_temp io = WriteThrows e ->
      run = (Callback (Some e), World (files w) (calls (n + 1)%nat))) /\
   (write_temp io = WriteOk ->
      (r4 <> Callback None -> run = (r4, World written (calls (n + 2)%nat))) /\
      (r4 = Callback None ->
         (forall e, rename_temp io = Some e ->
            run = (Callback (Some e), World written (calls (n + 3)%nat))) /\
         (rename_temp io = None ->
            run = (r6, World (<[filename := file_text lines]> (delete temp (files w)))
                             (calls (n + 4)%nat)))))).
Proof.
  cbv zeta.
  remember (flushToStorage (FlushOpts (dirname filename) true) (flush_dir_before io) w).1
    as r1 eqn:E1.
  remember (flushToStorage (FlushFile filename) (flush_target io) w).1 as r2 eqn:E2.
  remember (flushToStorage (FlushFile (filename +:+ "~")) (flush_temp io) w).1 as r4 eqn:E4.
  remember (flushToStorage (FlushOpts (dirname filename) true) (flush_dir_after io) w).1
    as r6 eqn:E6.
  assert (H1 : forall w0,
            flushToStorage (FlushOpts (dirname filename) true) (flush_dir_before io) w0
            = (r1, log (SysFlush (dirname filename) "r") w0))
    by (intros w0; rewrite E1; apply flushToStorage_at).
  assert (H2 : forall w0,
            flushToStorage (FlushFile filename) (flush_target io) w0
            = (r2, log (SysFlush filename "r+") w0))
    by (intros w0; rewrite E2; apply flushToStorage_at).
  assert (H4 : forall w0,
            flushToStorage (FlushFile (filename +:+ "~")) (flush_temp io) w0
            = (r4, log (SysFlush (filename +:+ "~") "r+") w0))
    by (intros w0; rewrite E4; apply flushToStorage_at).
  assert (H6 : forall w0,
            flushToStorage (FlushOpts (dirname filename) true) (flush_dir_after io) w0
            = (r6, log (SysFlush (dirname filename) "r") w0))
    by (intros w0; rewrite E6; apply flushToStorage_at).
  clear E1 E2 E4 E6.
  rewrite crashSafeWriteFileLines_eq.
  unfold Storage.steps_before, Storage.steps_after, Storage.protocol, exists_, rename.
  cbn [chain files log]. rewrite H1.
  destruct r1 as [[e1|]|x1].
  1,3: split; [intros _; same_world|split; intros H; [discriminate H|discriminate H]].
  split; [intros H; now contradiction H|]. cbn [files log].
  destruct (bool_decide (is_Some (files w !! filename)));
    [ rewrite H2; destruct r2 as [[e2|]|x2];
      [ split; [intros _ _; same_world|intros _ H; discriminate H]
      | split; [intros _ H; now contradiction H|intros _ _]
      | split; [intros _ _; same_world|intros _ H; discriminate H] ]
    | split; [intros _ H; now contradiction H|intros _ _] ].
  all: destruct (write_temp io) as [|e|remains e];
         [ split; [intros e H; discriminate H|intros _]
         | split; [|intros H; discriminate H]; intros e' [= <-]; same_world
         | split; [intros e' H; discriminate H|intros H; discriminate H] ].
  all: cbn [chain]; rewrite H4; destruct r4 as [[e4|]|x4];
         [ split; [intros _; same_world|intros H; discriminate H]
         | split; [intros H; now contradiction H|intros _]
         | split; [intros _; same_world|intros H; discriminate H] ].
  all: destruct (rename_temp io) as [e|];
         [ split; [|intros H; discriminate H]; intros e' [= <-]; same_world
         | split; [intros e H; discriminate H|intros _] ].
  all: cbn [files journal log set_files]; rewrite lookup_insert_eq, delete_insert_eq, H6;
       destruct r6 as [[e6|]|x6]; same_world.
Qed.

End MoreStorageFacts.

(** X3: [ensureFileDoesntExist] succeeds at once on a missing file,
    whatever [unlink] would answer; when it succeeds the file is gone;
    when it fails nothing has changed; and no other file is ever
    touched. *)
Theorem ensureFileDoesntExist_removes (file : string) (io : option error) (w : world) :
  let run := ensureFileDoesntExist file io w in
  (files w !! file = None -> run.1 = Callback None) /\
  (run.1 = Callback None -> files run.2 !! file = None) /\
  (run.1 <> Callback None -> files run.2 = files w) /\
  (forall other, other <> file -> files run.2 !! other = files w !! other).
Proof.
  intros run. subst run. unfold ensureFileDoesntExist, Storage.exists_, unlink.
  cbn [files log].
  destruct (files w !! file) as [content|] eqn:Hfile.
  - rewrite bool_decide_eq_true_2 by eauto. cbn [negb].
    destruct io as [e|]; cbn [files log]; rewrite ?Hfile; cbn [fst snd files set_files log].
    + repeat split; try discriminate; try reflexivity.
    + repeat split; try discriminate; try contradiction.
      * intros _. apply lookup_delete_eq.
      * intros other Hne. now rewrite lookup_delete_ne.
  - rewrite bool_decide_eq_false_2 by (apply is_Some_None). cbn [negb fst snd files log].
    repeat split; try reflexivity; try contradiction. intros _. exact Hfile.
Qed.

(** * Further properties of the datafile as text *)

Lemma append_cons (x : Ascii.ascii) (a b : string) :
  String x a +:+ b = String x (a +:+ b).
Proof. reflexivity. Qed.

Lemma append_empty_l (a : string) : "" +:+ a = a.
Proof. reflexivity. Qed.

Lemma append_assoc (a b c : string) : (a +:+ b) +:+ c = a +:+ (b +:+ c).
Proof.
  induction a as [|x a IH]; [reflexivity|]. rewrite !append_cons. now f_equal.
Qed.

Lemma append_empty_r (a : string) : a +:+ "" = a.
Proof.
  induction a as [|x a IH]; [reflexivity|]. rewrite append_cons. now f_equal.
Qed.

Lemma file_text_app (a b : list string) : file_text (a ++ b) = file_text a +:+ file_text b.
Proof.
  induction a as [|line a IH]; [reflexivity|].
  cbn [app file_text fold_right]. fold (file_text (a ++ b)). fold (file_text a).
  rewrite IH. now rewrite !append_assoc.
Qed.

Lemma split_line (line rest : string) :
  has_newline line = false ->
  split LF (line +:+ newline +:+ rest) = line :: split LF rest.
Proof.
  induction line as [|c line IH]; intros Hline.
  - reflexivity.
  - cbn in Hline. apply orb_false_iff in Hline as [Hc Hline].
    rewrite append_cons. cbn [split]. rewrite Hc, (IH Hline). reflexivity.
Qed.

(** The text a rewrite leaves reads back, split at newlines, as the
    lines written followed by one blank line, provided no line holds a
    newline itself. *)
Lemma split_file_text (lines : list string) :
  Forall (fun line => has_newline line = false) lines ->
  split LF (file_text lines) = lines ++ [""].
Proof.
  induction 1 as [|line lines Hline _ IH]; [reflexivity|].
  cbn [file_text fold_right app]. fold (file_text lines).
  now rewrite (split_line _ _ Hline), IH.
Qed.

Lemma file_text_empty (lines : list string) :
  String.length (file_text lines) = 0%nat <-> lines = [].
Proof.
  split; [|now intros ->]. destruct lines as [|line lines]; [reflexivity|].
  cbn [file_text fold_right]. rewrite !length_append. cbn. lia.
Qed.

(** * Further properties of the persistence layer *)

Section MorePersistenceFacts.
Variable dirname : string -> string.
Variable serialize : value -> string.
Variable deserialize : string -> completion value.
Variable key_of_nonstring : value -> completion string.

Local Abbreviation persistNewState := (Persistence.persistNewState serialize).
Local Abbreviation persistCachedDatabase := (Persistence.persistCachedDatabase dirname serialize).
Local Abbreviation compaction_lines := (Persistence.compaction_lines serialize).
Local Abbreviation survives := (Persistence.survives serialize deserialize).
Local Abbreviation treat_datum := (Persistence.treat_datum deserialize key_of_nonstring).
Local Abbreviation treatRawData := (Persistence.treatRawData deserialize key_of_nonstring).
Local Abbreviation line_effect := (Persistence.line_effect deserialize key_of_nonstring).

Lemma toPersist_text (p : Persistence.t) (newDocs : list value) (acc : string) :
  fold_left (fun toPersist doc =>
               toPersist +:+ (afterSerialization p (serialize doc) +:+ newline))
            newDocs acc
  = acc +:+ file_text (map (fun doc => afterSerialization p (serialize doc)) newDocs).
Proof.
  revert acc. induction newDocs as [|doc newDocs IH]; intros acc.
  - cbn. now rewrite append_empty_r.
  - cbn [fold_left map file_text fold_right]. rewrite IH.
    now rewrite !append_assoc.
Qed.

(** X4: [persistNewState] only ever appends.  It does nothing in
    in-memory mode or for no document; otherwise, whatever the outcome,
    no other file changes and the datafile keeps its previous content as
    a prefix; on success it has grown by exactly one newline-terminated
    line per document, in order. *)
Theorem persistNewState_appends (p : Persistence.t) (newDocs : list value)
    (io : append_io) (w : world) :
  let run := persistNewState p newDocs io w in
  let lines := map (fun doc => afterSerialization p (serialize doc)) newDocs in
  (inMemoryOnly p = true \/ newDocs = [] -> run = (Callback None, w)) /\
  (inMemoryOnly p = false -> forall f, filename p = Some f ->
     (forall other, other <> f -> files run.2 !! other = files w !! other) /\
     (exists suffix,
        default "" (files run.2 !! f) = default "" (files w !! f) +:+ suffix) /\
     (run.1 = Callback None ->
        default "" (files run.2 !! f) = default "" (files w !! f) +:+ file_text lines)).
Proof.
  intros run lines. subst run. unfold Persistence.persistNewState.
  rewrite toPersist_text, append_empty_l. fold lines. split.
  - intros [-> | ->]; [reflexivity|]. cbn. now destruct (inMemoryOnly p).
  - intros -> f ->.
    destruct (String.length (file_text lines) =? 0)%nat eqn:Hlen.
    + apply Nat.eqb_eq, file_text_empty in Hlen. rewrite Hlen. cbn [fst snd].
      repeat split; try reflexivity. exists "". now rewrite append_empty_r.
      cbn. now rewrite append_empty_r.
    + unfold appendFile.
      destruct io as [|[n|] e]; cbn [fst snd files set_files].
      * repeat split.
        -- intros other Hne. now rewrite lookup_insert_ne.
        -- rewrite lookup_insert_eq. cbn. eauto.
        -- intros _. now rewrite lookup_insert_eq.
      * repeat split; try discriminate.
        -- intros other Hne. now rewrite lookup_insert_ne.
        -- rewrite lookup_insert_eq. cbn. eauto.
      * repeat split; try discriminate. exists "". now rewrite append_empty_r.
Qed.

(** X5: appending to a datafile left by a rewrite keeps the log well
    formed: after a successful [persistNewState], the file reads back as
    the old lines, then one line per new document, then the blank line,
    so a replay of it is the replay of the old lines continued with the
    new ones. *)
Theorem persistNewState_extends_log (p : Persistence.t) (newDocs : list value)
    (old : list string) (w : world) (f : string) :
  inMemoryOnly p = false -> filename p = Some f ->
  files w !! f = Some (file_text old) ->
  Forall (fun line => has_newline line = false) old ->
  Forall (fun doc => has_newline (afterSerialization p (serialize doc)) = false) newDocs ->
  let run := persistNewState p newDocs AppendOk w in
  let lines := map (fun doc => afterSerialization p (serialize doc)) newDocs in
  exists content,
    files run.2 !! f = Some content /\
    split LF content = old ++ lines ++ [""] /\
    fold_left (treat_datum p) (split LF content) replay_start
    = fold_left (treat_datum p) (lines ++ [""])
        (fold_left (treat_datum p) old replay_start).
Proof.
  intros Hmode Hname Hold Hlines Hdocs run lines.
  assert (Hsplit : split LF (file_text (old ++ lines)) = old ++ lines ++ [""]).
  { rewrite split_file_text, <- app_assoc; [reflexivity|].
    apply Forall_app. split; [assumption|]. subst lines.
    apply Forall_map. exact Hdocs. }
  exists (file_text (old ++ lines)). split; [|split].
  - subst run. unfold Persistence.persistNewState. rewrite Hmode, Hname, toPersist_text.
    rewrite append_empty_l. fold lines.
    destruct (String.length (file_text lines) =? 0)%nat eqn:Hlen.
    + apply Nat.eqb_eq, file_text_empty in Hlen. rewrite Hlen, app_nil_r. exact Hold.
    + unfold appendFile. cbn [snd files set_files]. rewrite lookup_insert_eq, Hold.
      cbn [default]. now rewrite file_text_app.
  - exact Hsplit.
  - rewrite Hsplit. now rewrite fold_left_app.
Qed.

(** ** Reloading a compacted datafile *)

Lemma live_record_effect (p : Persistence.t) (doc : value) (k : string) :
  survives p doc -> string_id doc = Some k -> deleted_flag doc = false ->
  line_effect p (afterSerialization p (serialize doc)) = Normal (SetRecord k doc).
Proof.
  intros [Hround _] Hid Hdel. unfold Persistence.line_effect. rewrite Hround. cbn [bind].
  unfold string_id in Hid. destruct (get doc "_id") as [[| | | |s| |]|] eqn:Hget; try discriminate.
  destruct (String.eqb s "") eqn:Hs; [discriminate|]. injection Hid as ->.
  cbn [bind truthy]. rewrite Hs. cbn [negb Persistence.ToPropertyKey bind].
  now rewrite Hdel.
Qed.

Lemma index_doc_effect (p : Persistence.t) (field : string) (ix : index) :
  survives p (indexCreated_doc field ix) ->
  line_effect p (afterSerialization p (serialize (indexCreated_doc field ix)))
  = Normal (SetIndex field (index_spec field ix)).
Proof.
  intros [Hround _]. unfold Persistence.line_effect. rewrite Hround. reflexivity.
Qed.

(** The records of a list of documents, as the replay stores them. *)
Lemma replay_records (p : Persistence.t) (docs : list value) (st : replay) :
  Forall (survives p) docs -> Forall live_record docs ->
  fold_left (treat_datum p) (map (fun doc => afterSerialization p (serialize doc)) docs) st
  = Replay (fold_left (fun m doc => set_property (default "" (string_id doc)) doc m)
                      docs (dataById st))
           (indexes st) (corruptItems st).
Proof.
  intros Hs Hl. revert st. induction docs as [|doc docs IH]; intros st.
  - now destruct st.
  - apply Forall_cons in Hs as [Hdoc Hs]. apply Forall_cons in Hl as [[[k Hk] Hdel] Hl].
    cbn [map fold_left]. rewrite (IH Hs Hl).
    rewrite treat_datum_effect, (live_record_effect p doc k Hdoc Hk Hdel).
    cbn [apply_effect fst snd dataById indexes corruptItems]. now rewrite Hk.
Qed.

Lemma replay_directives (p : Persistence.t) (db : Datastore.t) (fields : list string)
    (st : replay) :
  Forall (fun field => survives p (indexCreated_doc field
            (default (Index false false) (Datastore.indexes db !! field)))) fields ->
  fold_left (treat_datum p)
    (map (fun field => afterSerialization p (serialize (indexCreated_doc field
            (default (Index false false) (Datastore.indexes db !! field))))) fields) st
  = Replay (dataById st)
           (fold_left (fun m field =>
                         set_property field
                           (index_spec field
                              (default (Index false false) (Datastore.indexes db !! field))) m)
                      fields (indexes st))
           (corruptItems st).
Proof.
  intros Hs. revert st. induction fields as [|field fields IH]; intros st.
  - now destruct st.
  - apply Forall_cons in Hs as [Hdoc Hs]. cbn [map fold_left]. rewrite (IH Hs).
    rewrite treat_datum_effect, (index_doc_effect p field _ Hdoc). reflexivity.
Qed.

Lemma records_values (docs : list value) (m : gmap string value) :
  NoDup (map string_id docs) ->
  Forall (fun doc => is_Some (string_id doc)) docs ->
  Forall (fun doc => m !! default "" (string_id doc) = None) docs ->
  Object_values (fold_left (fun m doc => set_property (default "" (string_id doc)) doc m)
                           docs m)
  ≡ₚ Object_values m ++ filter (fun doc => string_id doc <> Some "__proto__") docs.
Proof.
  revert m. induction docs as [|doc docs IH]; intros m Hnodup Hids Hfresh.
  - cbn. now rewrite app_nil_r.
  - cbn [map] in Hnodup. apply NoDup_cons in Hnodup as [Hnotin Hnodup].
    apply Forall_cons in Hids as [[k Hk] Hids]. apply Forall_cons in Hfresh as [Hdoc Hfresh].
    cbn [fold_left]. rewrite filter_cons. rewrite Hk in *. cbn [default] in *.
    unfold id in *.
    destruct (decide (k = "__proto__")) as [->|Hk'].
    + rewrite set_property_proto, decide_False by (intros H; now apply H).
      now apply IH.
    + rewrite (set_property_other k doc m Hk').
      rewrite decide_True by (intros [= E]; contradiction).
      rewrite IH; [|assumption|assumption|].
      * unfold Object_values. rewrite map_to_list_insert by assumption.
        cbn [fmap list_fmap snd]. rewrite <- Permutation_middle. reflexivity.
      * apply Forall_forall. intros doc' Hin.
        rewrite Forall_forall in Hfresh, Hids.
        destruct (Hids doc' Hin) as [k' Hk''].
        rewrite lookup_insert_ne; [now apply Hfresh|].
        rewrite Hk''. cbn. intros ->. apply Hnotin.
        rewrite <- Hk''. apply list_elem_of_fmap. eauto.
Qed.

Lemma directives_lookup (g : string -> value) (fields : list string)
    (m : gmap string value) (field : string) :
  field <> "__proto__" ->
  fold_left (fun m f => set_property f (g f) m) fields m !! field
  = if decide (field ∈ fields) then Some (g field) else m !! field.
Proof.
  intros Hfield. revert m. induction fields as [|f fields IH]; intros m.
  - cbn. destruct (decide (field ∈ [])) as [Hin|]; [inversion Hin|reflexivity].
  - cbn [fold_left]. rewrite IH.
    destruct (decide (field ∈ fields)) as [Hin|Hnin].
    + rewrite decide_True by (now right). reflexivity.
    + destruct (decide (f = field)) as [->|Hne].
      * rewrite decide_True by (now left). now apply lookup_set_property_eq.
      * rewrite decide_False by (intros [?|?]%elem_of_cons; congruence).
        now rewrite lookup_set_property_ne.
Qed.

Lemma directives_no_proto (g : string -> value) (fields : list string)
    (m : gmap string value) :
  fold_left (fun m f => set_property f (g f) m) fields m !! "__proto__" = m !! "__proto__".
Proof.
  revert m. induction fields as [|f fields IH]; intros m; [reflexivity|].
  cbn [fold_left]. rewrite IH. unfold set_property.
  destruct (String.eqb_spec f "__proto__") as [->|Hne]; [reflexivity|].
  now apply lookup_insert_ne.
Qed.

(** X6: a successful compaction followed by a load gives the datastore
    back, but for the key [__proto__].  When every document to write
    survives the round trip through serialization and the hooks on a
    single line, the records have distinct non-empty string identifiers
    and no deletion marker, the blank line does not parse and the
    threshold is not negative, then the replay of the datafile left by
    [persistCachedDatabase] succeeds; its records are the documents of
    the datastore other than the one whose identifier is [__proto__],
    in some order, and its directives are those of the indexes other
    than [_id] and [__proto__]. *)
Theorem compaction_reloads (p : Persistence.t) (io : rewrite_io) (db : Datastore.t)
    (w : world) (f : string) :
  inMemoryOnly p = false -> filename p = Some f ->
  Forall (survives p) (compaction_docs db) ->
  Forall live_record (Datastore.getAllData db) ->
  NoDup (map string_id (Datastore.getAllData db)) ->
  (exists e, deserialize (beforeDeserialization p "") = Throw e) ->
  (0 <= corruptAlertThreshold p)%Q ->
  (persistCachedDatabase p io db w).1.1 = Callback None ->
  exists content result,
    files (persistCachedDatabase p io db w).2 !! f = Some content /\
    treatRawData p content = Normal result /\
    data result
      ≡ₚ filter (fun doc => string_id doc <> Some "__proto__") (Datastore.getAllData db) /\
    forall field,
      treated_indexes result !! field
      = if decide (field = "_id" \/ field = "__proto__") then None
        else index_spec field <$> (Datastore.indexes db !! field).
Proof.
  intros Hmode Hname Hsurvive Hlive Hnodup [e Hblank] Hthreshold Hok.
  unfold Persistence.compaction_docs in Hsurvive. apply Forall_app in Hsurvive as [Hdata Hix].
  rewrite List.Forall_map in Hix.
  set (fields := filter (fun fieldName => fieldName <> "_id")
                        (Object_keys (Datastore.indexes db))) in *.
  set (lines := compaction_lines p db).
  assert (Hcontent : files (persistCachedDatabase p io db w).2 !! f = Some (file_text lines)).
  { revert Hok. unfold Persistence.persistCachedDatabase. rewrite Hmode, Hname. fold lines.
    pose proof (crashSafeWriteFileLines_success dirname f lines io w) as Hwrite.
    destruct (Storage.crashSafeWriteFileLines dirname f lines io w) as [[[err|]|x] w'];
      cbn [fst snd] in *; try discriminate. intros _. now apply Hwrite. }
  assert (Hsplit : split LF (file_text lines) = lines ++ [""]).
  { apply split_file_text. subst lines. unfold Persistence.compaction_lines.
    apply Forall_app. split; apply Forall_map.
    - eapply Forall_impl; [exact Hdata|]. intros doc [_ H]. exact H.
    - eapply Forall_impl; [exact Hix|]. intros field [_ H]. exact H. }
  assert (Hreplay : fold_left (treat_datum p) (lines ++ [""]) replay_start
    = Replay (fold_left (fun m doc => set_property (default "" (string_id doc)) doc m)
                        (Datastore.getAllData db) ∅)
             (fold_left (fun m field =>
                           set_property field
                             (index_spec field
                                (default (Index false false) (Datastore.indexes db !! field))) m)
                        fields ∅)
             0).
  { subst lines. unfold Persistence.compaction_lines. fold fields.
    rewrite !fold_left_app, (replay_records p _ _ Hdata Hlive).
    rewrite (replay_directives p db fields _ Hix).
    cbn [fold_left dataById indexes corruptItems replay_start].
    unfold Persistence.treat_datum, Persistence.try_datum. rewrite Hblank. reflexivity. }
  exists (file_text lines). eexists. split; [exact Hcontent|]. split; [|split].
  - unfold Persistence.treatRawData. rewrite Hsplit, Hreplay.
    cbn [dataById indexes corruptItems].
    replace (Qgt_bool _ _) with false; [rewrite andb_false_r; reflexivity|].
    symmetry. unfold Qgt_bool. apply negb_false_iff, Qle_bool_iff.
    unfold Qle in *. cbn in *. lia.
  - cbn [data]. rewrite records_values.
    + unfold Object_values. rewrite map_to_list_empty. reflexivity.
    + exact Hnodup.
    + eapply Forall_impl; [exact Hlive|]. intros doc [H _]. exact H.
    + apply Forall_forall. intros doc _. apply lookup_empty.
  - intros field. cbn [treated_indexes].
    destruct (decide (field = "__proto__")) as [->|Hproto].
    { rewrite directives_no_proto, lookup_empty.
      rewrite decide_True by (now right). reflexivity. }
    rewrite (directives_lookup
               (fun field => index_spec field
                  (default (Index false false) (Datastore.indexes db !! field))))
      by assumption.
    rewrite lookup_empty. subst fields.
    destruct (decide (field = "_id")) as [->|Hne].
    + rewrite decide_False, decide_True; [reflexivity|now left|].
      intros [Hno _]%list_elem_of_filter. now apply Hno.
    + rewrite (decide_False (P := field = "_id" \/ field = "__proto__")) by tauto.
      destruct (Datastore.indexes db !! field) as [ix|] eqn:Hfield.
      * rewrite decide_True; [reflexivity|].
        apply list_elem_of_filter. split; [assumption|].
        unfold Object_keys. apply list_elem_of_fmap. exists (field, ix).
        split; [reflexivity|]. now apply elem_of_map_to_list.
      * rewrite decide_False; [reflexivity|].
        intros [_ Hin]%list_elem_of_filter. unfold Object_keys in Hin.
        apply list_elem_of_fmap in Hin as [[field' ix] [-> Hin]].
        apply elem_of_map_to_list in Hin. cbn [fst] in Hfield. congruence.
Qed.

(** X7: a compaction that reports a failure emits nothing and changes
    no other file than the datafile and its temp file.  The datafile
    holds its previous content, unless the rename was done: either the
    failure reported is that of the last flush of the directory, after
    a write and a rename that succeeded, and the datafile holds the
    complete new text; or the write stream of the temp file had failed,
    which is the failure reported, and the datafile holds what that
    write left in the temp file.  In both cases the temp file is
    gone. *)
Theorem failed_compaction_keeps_datafile (p : Persistence.t) (io : rewrite_io)
    (db : Datastore.t) (w : world) (f : string) :
  filename p = Some f ->
  (persistCachedDatabase p io db w).1.1 <> Callback None ->
  let run := persistCachedDatabase p io db w in
  Datastore.emitted run.1.2 = Datastore.emitted db /\
  (forall other, other <> f -> other <> f +:+ "~" ->
     files run.2 !! other = files w !! other) /\
  (files run.2 !! f = files w !! f \/
   (write_temp io = WriteOk /\ rename_temp io = None /\
    run.1.1 = (flushToStorage (FlushOpts (dirname f) true) (flush_dir_after io) w).1 /\
    files run.2 !! f = Some (file_text (compaction_lines p db)) /\
    files run.2 !! (f +:+ "~") = None) \/
   (exists partial e,
      write_temp io = WriteFails (Some partial) e /\
      run.1.1 = Callback (Some e) /\
      files run.2 !! f = Some partial /\
      files run.2 !! (f +:+ "~") = None)).
Proof.
  intros Hname. cbv zeta. unfold Persistence.persistCachedDatabase. rewrite Hname.
  destruct (inMemoryOnly p); [intros H; now contradiction H|].
  pose proof (rewrite_files_cases dirname f (compaction_lines p db) io w) as Hcases.
  cbv zeta in Hcases. pose proof (temp_name_fresh f) as Hfresh.
  destruct (Storage.crashSafeWriteFileLines dirname f (compaction_lines p db) io w)
    as [[[err|]|x] w']; cbn [fst snd] in *; intros Hfail; try (now contradiction Hfail).
  all: split; [reflexivity|].
  all: destruct Hcases
         as [[Hok _]|[_ [->|[[s ->]|[->|[(-> & Hw & Hr & Hout)|(s & e & Hw & Hout & ->)]]]]]];
       try discriminate Hok.
  all: split;
    [ intros other Hf Ht;
      rewrite ?lookup_insert_ne, ?lookup_delete_ne by congruence; reflexivity
    | ].
  all: try (left; rewrite ?lookup_insert_ne, ?lookup_delete_ne by congruence; reflexivity).
  all: try discriminate Hout.
  all: first
         [ right; left; repeat split; try assumption;
           [ apply lookup_insert_eq
           | rewrite lookup_insert_ne by congruence; apply lookup_delete_eq ]
         | right; right; exists s, e; repeat split; try assumption;
           [ apply lookup_insert_eq
           | rewrite lookup_insert_ne by congruence; apply lookup_delete_eq ] ].
Qed.

(** X9: what the threshold tolerates.  With a threshold that is not
    negative, a log with at most one line that does not parse (the
    customary blank last line) always loads; with a threshold of one or
    more, every log loads. *)
Theorem treatRawData_tolerates (p : Persistence.t) (rawData : string) :
  ((0 <= corruptAlertThreshold p)%Q ->
   (Persistence.corrupt_count deserialize key_of_nonstring p (split LF rawData) <= 1)%nat ->
   exists result, treatRawData p rawData = Normal result) /\
  ((1 <= corruptAlertThreshold p)%Q ->
   exists result, treatRawData p rawData = Normal result).
Proof.
  pose proof (treatRawData_cases deserialize key_of_nonstring p rawData) as Hcases.
  cbv zeta in Hcases.
  pose proof (split_not_empty LF rawData) as Hlen.
  pose proof (length_filter
                (fun line => Persistence.corrupt deserialize key_of_nonstring p line = true)
                (split LF rawData)) as Hcount.
  fold (Persistence.corrupt_count deserialize key_of_nonstring p (split LF rawData)) in Hcount.
  set (c := Persistence.corrupt_count deserialize key_of_nonstring p (split LF rawData)) in *.
  set (n := length (split LF rawData)) in *.
  assert (Hratio : forall t : Q,
             (inject_Z (Z.of_nat c - 1) / inject_Z (Z.of_nat n) <= t)%Q ->
             Qgt_bool (Persistence.corrupt_ratio deserialize key_of_nonstring p (split LF rawData)) t
             = false).
  { intros t Hle. unfold Qgt_bool. apply negb_false_iff, Qle_bool_iff. exact Hle. }
  split.
  - intros Hthreshold Hone. rewrite Hcases, Hratio; [eauto|].
    apply Qle_trans with 0%Q; [|assumption].
    apply Qle_shift_div_r; [unfold Qlt; cbn; lia|].
    rewrite Qmult_0_l. unfold Qle. cbn. lia.
  - intros Hthreshold. rewrite Hcases, Hratio; [eauto|].
    apply Qle_trans with 1%Q; [|assumption].
    apply Qle_shift_div_r; [unfold Qlt; cbn; lia|].
    rewrite Qmult_1_l. rewrite <- Zle_Qle. lia.
Qed.

End MorePersistenceFacts.

(** * Further properties of the constructor *)

Section MoreConstructorFacts.
Variable path_join : list string -> string.
Variable uid : nat -> nat -> string.

Local Abbreviation probe_hooks := (Persistence.probe_hooks uid).
Local Abbreviation constructor := (Persistence.constructor path_join uid).
Local Abbreviation probe_fails := (Persistence.probe_fails uid).
Local Abbreviation getNWAppFilename := (Persistence.getNWAppFilename path_join).

Lemma for_each_normal {A : Type} (items : list A) (body : A -> completion unit) :
  for_each items body = Normal tt <-> forall x, x ∈ items -> body x = Normal tt.
Proof.
  induction items as [|y items IH]; cbn [for_each].
  - split; [intros _ x Hx; inversion Hx | reflexivity].
  - destruct (body y) as [[]|e] eqn:Hy; cbn [bind].
    + rewrite IH. split.
      * intros H x [->|Hx]%elem_of_cons; [assumption | now apply H].
      * intros H x Hx. apply H. now right.
    + split; [discriminate|]. intros H. rewrite H in Hy by (now left). discriminate.
Qed.

Lemma probe_hooks_normal (after before : string -> string) :
  probe_hooks after before = Normal tt <->
  forall i j, (1 <= i < 30)%nat -> (j < 10)%nat -> before (after (uid i j)) = uid i j.
Proof.
  unfold Persistence.probe_hooks. rewrite for_each_normal. split.
  - intros H i j Hi Hj.
    assert (Hin : i ∈ seq 1 29) by (apply elem_of_seq; lia).
    specialize (H i Hin). rewrite for_each_normal in H.
    assert (Hjn : j ∈ seq 0 10) by (apply elem_of_seq; lia).
    specialize (H j Hjn). unfold throw_if in H.
    destruct (String.eqb_spec (before (after (uid i j))) (uid i j)); [assumption|discriminate].
  - intros H i Hi%elem_of_seq. apply for_each_normal. intros j Hj%elem_of_seq.
    unfold throw_if. rewrite H by lia. now rewrite String.eqb_refl.
Qed.

Lemma throw_if_normal (cond : bool) (message : string) :
  throw_if cond message = Normal tt <-> cond = false.
Proof. unfold throw_if. destruct cond; split; congruence. Qed.

(** What the steps of the constructor amount to when it returns. *)
Lemma constructor_normal (proc : process) (o : options) (p : Persistence.t) :
  constructor proc o = Normal p <->
  negb (Datastore.inMemoryOnly (opt_db o)) &&
    truthy_string (Datastore.filename (opt_db o)) &&
    match Datastore.filename (opt_db o) with
    | Some f => last_char_is_tilde f
    | None => false
    end = false /\
  bool_decide (is_Some (opt_afterSerialization o)) &&
    negb (bool_decide (is_Some (opt_beforeDeserialization o))) = false /\
  negb (bool_decide (is_Some (opt_afterSerialization o))) &&
    bool_decide (is_Some (opt_beforeDeserialization o)) = false /\
  probe_hooks (default (fun s => s) (opt_afterSerialization o))
              (default (fun s => s) (opt_beforeDeserialization o)) = Normal tt /\
  exists filename,
    match Datastore.filename (opt_db o), opt_nodeWebkitAppName o with
    | Some f, Some appName =>
        if truthy_string (Datastore.filename (opt_db o)) && truthy_string (Some appName)
        then bind (getNWAppFilename proc appName f) (fun f' => Normal (Some f'))
        else Normal (Datastore.filename (opt_db o))
    | _, _ => Normal (Datastore.filename (opt_db o))
    end = Normal filename /\
    p = Persistence.Make (Datastore.inMemoryOnly (opt_db o)) filename
          match opt_corruptAlertThreshold o with
          | Some threshold => threshold
          | None => 1 # 10
          end
          (default (fun s => s) (opt_afterSerialization o))
          (default (fun s => s) (opt_beforeDeserialization o)).
Proof.
  unfold Persistence.constructor.
  repeat match goal with
         | |- context [throw_if ?c ?m] =>
             let E := fresh "E" in
             destruct (throw_if c m) as [[]|] eqn:E; cbn [bind];
             [apply throw_if_normal in E; rewrite E
             |split; [discriminate|];
              intros H; decompose [and] H;
              match goal with
              | Hc : c = false |- _ => rewrite Hc in E; discriminate E
              end]
         end.
  destruct (probe_hooks _ _) as [[]|e]; cbn [bind];
    [|split; [discriminate|]; intros H; decompose [and] H; discriminate].
  match goal with
  | |- bind ?c _ = _ <-> _ => destruct c as [filename|e]; cbn [bind]
  end.
  - split.
    + intros [= <-]. repeat split. eauto.
    + intros (_ & _ & _ & _ & filename' & [= <-] & ->). reflexivity.
  - split; [discriminate|]. intros (_ & _ & _ & _ & filename' & Hf & _). discriminate.
Qed.

(** X10: the constructor accepts every sound configuration.  When the
    store is in-memory-only or its file name does not end in [~], the
    hooks come as a pair or not at all, every string drawn by the probe
    survives them, and no [nodeWebkitAppName] is given, it returns an
    object with the mode and file name of the datastore, the configured
    threshold (0.1 by default) and the configured hooks (the identity by
    default). *)
Theorem constructor_accepts (proc : process) (o : options) :
  ~ (Datastore.inMemoryOnly (opt_db o) = false /\
     exists name, Datastore.filename (opt_db o) = Some name /\ ends_with_reserved_suffix name) ->
  ~ unpaired_hooks o ->
  ~ probe_fails o ->
  opt_nodeWebkitAppName o = None ->
  constructor proc o
  = Normal (Persistence.Make (Datastore.inMemoryOnly (opt_db o))
              (Datastore.filename (opt_db o))
              (default (1 # 10) (opt_corruptAlertThreshold o))
              (default (fun s => s) (opt_afterSerialization o))
              (default (fun s => s) (opt_beforeDeserialization o))).
Proof.
  intros Hsuffix Hpair Hprobe Hnw. apply constructor_normal.
  split; [|split; [|split; [|split]]].
  - destruct (Datastore.inMemoryOnly (opt_db o)) eqn:Hm; [reflexivity|].
    destruct (Datastore.filename (opt_db o)) as [name|] eqn:Hf; [|reflexivity].
    cbn [negb andb]. destruct (last_char_is_tilde name) eqn:Hl; [|apply andb_false_r].
    exfalso. apply Hsuffix. split; [reflexivity|]. exists name. split; [reflexivity|].
    now apply last_char_is_tilde_spec.
  - destruct (opt_afterSerialization o) eqn:Ha, (opt_beforeDeserialization o) eqn:Hb;
      try reflexivity.
    exfalso. apply Hpair. left. rewrite Ha, Hb. split; [eauto | reflexivity].
  - destruct (opt_afterSerialization o) eqn:Ha, (opt_beforeDeserialization o) eqn:Hb;
      try reflexivity.
    exfalso. apply Hpair. right. rewrite Ha, Hb. split; [reflexivity | eauto].
  - apply probe_hooks_normal. intros i j Hi Hj.
    destruct (String.eqb_spec
                (default (fun s => s) (opt_beforeDeserialization o)
                   (default (fun s => s) (opt_afterSerialization o) (uid i j)))
                (uid i j)) as [Heq|Hne]; [exact Heq|].
    exfalso. apply Hprobe. exists i, j. auto.
  - exists (Datastore.filename (opt_db o)). rewrite Hnw. split.
    + now destruct (Datastore.filename (opt_db o)).
    + now destruct (opt_corruptAlertThreshold o).
Qed.

(** X11: what a constructed object guarantees.  If the constructor
    returns, then the hooks of the object are those configured (the
    identity when none is), they were given as a pair or not at all, and
    every string drawn by the probe survives them; a durable object does
    not sit on a file name ending in [~]; and its file name is the one
    configured, or the one [getNWAppFilename] computed from it. *)
Theorem constructor_guarantees (proc : process) (o : options) (p : Persistence.t) :
  constructor proc o = Normal p ->
  inMemoryOnly p = Datastore.inMemoryOnly (opt_db o) /\
  afterSerialization p = default (fun s => s) (opt_afterSerialization o) /\
  beforeDeserialization p = default (fun s => s) (opt_beforeDeserialization o) /\
  ~ unpaired_hooks o /\
  (forall i j, (1 <= i < 30)%nat -> (j < 10)%nat ->
     beforeDeserialization p (afterSerialization p (uid i j)) = uid i j) /\
  (inMemoryOnly p = false -> forall name,
     Datastore.filename (opt_db o) = Some name -> ~ ends_with_reserved_suffix name) /\
  (filename p = Datastore.filename (opt_db o) \/
   exists appName name f',
     opt_nodeWebkitAppName o = Some appName /\
     Datastore.filename (opt_db o) = Some name /\
     getNWAppFilename proc appName name = Normal f' /\
     filename p = Some f').
Proof.
  intros H. apply constructor_normal in H
    as (Hsuffix & Hpair1 & Hpair2 & Hprobe & filename & Hfile & ->).
  cbn [inMemoryOnly afterSerialization beforeDeserialization Persistence.filename].
  split; [reflexivity|]. split; [reflexivity|]. split; [reflexivity|].
  split; [|split; [|split]].
  - intros [[[a Ha] Hb]|[Ha [b Hb]]]; rewrite Ha, Hb in *; discriminate.
  - now apply probe_hooks_normal.
  - intros Hmode name Hname Hends. rewrite Hmode, Hname in Hsuffix.
    rewrite (reserved_suffix_truthy _ Hends) in Hsuffix.
    apply last_char_is_tilde_spec in Hends. rewrite Hends in Hsuffix. discriminate.
  - destruct (Datastore.filename (opt_db o)) as [name|] eqn:Hname;
      [|cbv beta iota in Hfile; injection Hfile as <-; now left].
    destruct (opt_nodeWebkitAppName o) as [appName|] eqn:Happ;
      [|cbv beta iota in Hfile; injection Hfile as <-; now left].
    cbv beta iota in Hfile.
    destruct (_ && _) in Hfile; [|injection Hfile as <-; now left].
    destruct (getNWAppFilename proc appName name) as [f'|e] eqn:Hnw; [|discriminate].
    cbn [bind] in Hfile. injection Hfile as <-. right. exists appName, name, f'. auto.
Qed.

End MoreConstructorFacts.

(** * Properties of the autocompaction timer *)

Lemma stopAutocompaction_clears (st : autocompaction) :
  one_timer st ->
  live (process_timers (stopAutocompaction st)) = ∅ /\
  last_id (process_timers (stopAutocompaction st)) = last_id (process_timers st) /\
  autocompactionIntervalId (stopAutocompaction st) = autocompactionIntervalId st.
Proof.
  intros Hone. unfold stopAutocompaction.
  destruct (autocompactionIntervalId st) as [id|] eqn:Hid.
  - destruct (Nat.eqb_spec id 0) as [->|Hnz]; cbn [negb].
    + rewrite Hid. repeat split. apply map_empty. intros i.
      destruct (live (process_timers st) !! i) as [ms|] eqn:Hi; [|reflexivity].
      destruct (Hone i ms Hi) as (Hsame & _ & Hpos & _). rewrite Hid in Hsame.
      injection Hsame as <-. lia.
    + cbn [process_timers clearInterval live last_id autocompactionIntervalId].
      repeat split. apply map_empty. intros i.
      destruct (decide (i = id)) as [->|Hne]; [apply lookup_delete_eq|].
      rewrite lookup_delete_ne by congruence.
      destruct (live (process_timers st) !! i) as [ms|] eqn:Hi; [|reflexivity].
      destruct (Hone i ms Hi) as (Hsame & _). rewrite Hid in Hsame. congruence.
  - rewrite Hid. repeat split. apply map_empty. intros i.
    destruct (live (process_timers st) !! i) as [ms|] eqn:Hi; [|reflexivity].
    destruct (Hone i ms Hi) as (Hsame & _). rewrite Hid in Hsame. discriminate.
Qed.

Lemma setAutocompactionInterval_sets (interval : option Z) (st : autocompaction) :
  one_timer st ->
  let id := S (last_id (process_timers st)) in
  setAutocompactionInterval interval st
  = Autocompaction (Some id)
      (Timers {[id := timer_delay (Z.max (number_or interval 0) 5000)]} id).
Proof.
  intros Hone. destruct (stopAutocompaction_clears st Hone) as (Hlive & Hlast & _).
  unfold setAutocompactionInterval, setInterval. rewrite Hlive, Hlast. reflexivity.
Qed.

Lemma run_call_one_timer (st : autocompaction) (c : autocompaction_call) :
  one_timer st -> one_timer (run_call st c).
Proof.
  intros Hone. destruct c as [interval|]; cbn [run_call].
  - rewrite (setAutocompactionInterval_sets interval st Hone). cbv zeta.
    intros id ms. cbn [process_timers live last_id autocompactionIntervalId].
    intros [<- <-]%lookup_singleton_Some. split; [reflexivity|]. split; [|lia].
    unfold timer_delay.
    destruct (1 <=? Z.max (number_or interval 0) 5000)%Z eqn:Hlow; cbn [andb]; [|now right].
    destruct (Z.max (number_or interval 0) 5000 <=? TIMEOUT_MAX)%Z eqn:Hhigh; [|now right].
    left. apply Z.leb_le in Hhigh. lia.
  - destruct (stopAutocompaction_clears st Hone) as (Hlive & _).
    intros id ms. rewrite Hlive, lookup_empty. discriminate.
Qed.

Lemma run_calls_one_timer (calls : list autocompaction_call) (st : autocompaction) :
  one_timer st -> one_timer (fold_left run_call calls st).
Proof.
  revert st. induction calls as [|c calls IH]; intros st Hone; [assumption|].
  cbn [fold_left]. apply IH. now apply run_call_one_timer.
Qed.

(** X12: whatever the sequence of calls to [setAutocompactionInterval]
    and [stopAutocompaction] on a new object, at most one of its timers
    is live, the one it remembers; its period is at least 5000 ms and
    at most 2147483647 ms, or it is 1 ms.  Right after a
    [setAutocompactionInterval(interval)] exactly one is live: its
    period is the larger of [interval] and 5000 ms (5000 ms when
    [interval] is missing or zero) when [interval] is at most
    2147483647 ms, and 1 ms when [interval] is larger, the minimum being
    enforced below but no maximum above.  Right after a
    [stopAutocompaction] none is live, however often it is repeated. *)
Theorem autocompaction_keeps_one_timer (calls : list autocompaction_call) :
  let st := fold_left run_call calls autocompaction_start in
  (forall id ms, live (process_timers st) !! id = Some ms ->
     autocompactionIntervalId st = Some id /\
     ((5000 <= ms <= 2147483647)%Z \/ ms = 1%Z)) /\
  (forall before interval, calls = before ++ [SetInterval interval] ->
     exists id period,
       autocompactionIntervalId st = Some id /\
       live (process_timers st) = {[id := period]} /\
       ((number_or interval 0 <= 2147483647)%Z ->
          period = Z.max (number_or interval 0) 5000) /\
       ((2147483647 < number_or interval 0)%Z -> period = 1%Z)) /\
  (forall before, calls = before ++ [Stop] -> live (process_timers st) = ∅).
Proof.
  assert (Hstart : one_timer autocompaction_start).
  { intros id ms. cbn. rewrite lookup_empty. discriminate. }
  intros st. subst st. split; [|split].
  - intros id ms Hlive.
    destruct (run_calls_one_timer calls _ Hstart id ms Hlive) as (Hid & Hms & _). auto.
  - intros before interval ->. rewrite fold_left_app. cbn [fold_left run_call].
    rewrite setAutocompactionInterval_sets by (now apply run_calls_one_timer).
    cbv zeta. eexists. eexists. split; [reflexivity|]. split; [reflexivity|].
    unfold timer_delay, TIMEOUT_MAX. split; intros Hinterval.
    + rewrite (proj2 (Z.leb_le 1 _)), (proj2 (Z.leb_le _ 2147483647)) by lia. reflexivity.
    + rewrite (proj2 (Z.leb_gt _ 2147483647)) by lia. now rewrite andb_false_r.
  - intros before ->. rewrite fold_left_app. cbn [fold_left run_call].
    apply stopAutocompaction_clears. now apply run_calls_one_timer.
Qed.

(** * Properties of the react-native storage *)

Lemma join_lines_text (lines : list string) :
  join_lines (lines ++ [""]) = file_text lines.
Proof.
  unfold join_lines. induction lines as [|line lines IH]; [reflexivity|].
  cbn [app file_text fold_right]. fold (file_text lines). rewrite <- IH.
  destruct lines; reflexivity.
Qed.

(** X13: on success the react-native [crashSafeWriteFileLines] stores
    under the file name the very text the Node version leaves in the
    datafile (every line followed by a newline), touches no other key
    (it uses no temp entry), and has extended the array of the caller
    by one empty string; when the store reports an error the callback
    receives it, and the array of the caller has been extended all the
    same. *)
Theorem react_native_rewrite_text (filename : string) (lines : list string)
    (s : ReactNativeStorage.store) :
  let run := ReactNativeStorage.crashSafeWriteFileLines filename lines None s in
  run.1.1 = Callback None /\
  run.1.2 !! filename = Some (file_text lines) /\
  (forall other, other <> filename -> run.1.2 !! other = s !! other) /\
  run.2 = lines ++ [""] /\
  (forall e,
     (ReactNativeStorage.crashSafeWriteFileLines filename lines (Some e) s).1.1
     = Callback (Some e) /\
     (ReactNativeStorage.crashSafeWriteFileLines filename lines (Some e) s).2
     = lines ++ [""]).
Proof.
  cbv zeta. unfold ReactNativeStorage.crashSafeWriteFileLines, ReactNativeStorage.writeFile.
  unfold ReactNativeStorage.store in *.
  cbn [fst snd]. rewrite join_lines_text.
  split; [reflexivity|]. split; [apply lookup_insert_eq|].
  split; [intros other Hne; now rewrite lookup_insert_ne|].
  split; [reflexivity|]. intros e. split; reflexivity.
Qed.

Lemma contents_or_empty_some (c : string) :
  ReactNativeStorage.contents_or_empty (Some c) = c.
Proof.
  unfold ReactNativeStorage.contents_or_empty.
  destruct (String.eqb_spec c ""); congruence.
Qed.

(** X14: reading the react-native store never fails and sees what was
    written: a missing key reads as the empty text; after a successful
    [writeFile] the text written is read back and the key exists, even
    for the empty text; after a successful [appendFile] the text read is
    the previous one followed by the addition, a missing key counting as
    empty; after a successful [unlink] the key is gone and reads as
    empty. *)
Theorem react_native_read_after_write (filename contents : string)
    (s : ReactNativeStorage.store) :
  (s !! filename = None -> ReactNativeStorage.readFile filename s = "") /\
  ReactNativeStorage.readFile filename
    (ReactNativeStorage.writeFile filename contents None s).2 = contents /\
  ReactNativeStorage.exists_ filename
    (ReactNativeStorage.writeFile filename contents None s).2 = true /\
  ReactNativeStorage.readFile filename
    (ReactNativeStorage.appendFile filename contents None s).2
    = ReactNativeStorage.readFile filename s +:+ contents /\
  ReactNativeStorage.exists_ filename
    (ReactNativeStorage.unlink filename None s).2 = false /\
  ReactNativeStorage.readFile filename
    (ReactNativeStorage.unlink filename None s).2 = "".
Proof.
  unfold ReactNativeStorage.readFile, ReactNativeStorage.writeFile,
    ReactNativeStorage.appendFile, ReactNativeStorage.unlink, ReactNativeStorage.exists_.
  unfold ReactNativeStorage.store in *. cbn [snd].
  rewrite !lookup_insert_eq, !lookup_delete_eq, !contents_or_empty_some.
  repeat split. now intros ->.
Qed.

(** * The further properties on concrete inputs *)

Section MoreRuns.
Import Sample.

Local Abbreviation treatRawData := (Persistence.treatRawData deserialize key_of_nonstring).
Local Abbreviation constructor := (Persistence.constructor path_join uid).
Local Abbreviation persistCachedDatabase := (Persistence.persistCachedDatabase dirname serialize).
Local Abbreviation persistNewState := (Persistence.persistNewState serialize).
Local Abbreviation crashSafeWriteFileLines := (Storage.crashSafeWriteFileLines dirname).

Lemma crashSafeWriteFileLines_leaves_no_temp_run :
  files (crashSafeWriteFileLines "menu.db" ["#a"; "=b"] rewrite_ok stale_disk).2 !! "menu.db"
    = Some (file_text ["#a"; "=b"]) /\
  files (crashSafeWriteFileLines "menu.db" ["#a"; "=b"] rewrite_ok stale_disk).2 !! "menu.db~"
    = None.
Proof.
  pose proof (crashSafeWriteFileLines_leaves_no_temp dirname "menu.db" ["#a"; "=b"]
                rewrite_ok stale_disk) as H.
  cbv zeta in H. destruct H as [_ H].
  destruct H as (Htarget & Htemp & _); [vm_compute; reflexivity|]. split; assumption.
Defined.

Lemma rewrite_then_integrity_check_run :
  (ensureDatafileIntegrity "menu.db" (IntegrityIO None None)
     (crashSafeWriteFileLines "menu.db" ["#a"; "=b"] last_flush_fails disk).2).1
    = Callback None /\
  files (ensureDatafileIntegrity "menu.db" (IntegrityIO None None)
           (crashSafeWriteFileLines "menu.db" ["#a"; "=b"] write_fails disk).2).2 !! "menu.db"
    = Some "#".
Proof.
  split.
  - apply (rewrite_then_integrity_check dirname "menu.db" ["#a"; "=b"] last_flush_fails
             (IntegrityIO None None) disk).
    vm_compute. eauto.
  - destruct (rewrite_then_integrity_check dirname "menu.db" ["#a"; "=b"] write_fails
                (IntegrityIO None None) disk) as (_ & _ & Hcontent).
    + vm_compute. eauto.
    + destruct Hcontent as [Hold|[[Hok _]|(s & e & Hw & Hpartial)]].
      * vm_compute in Hold. discriminate Hold.
      * discriminate Hok.
      * injection Hw as <- _. exact Hpartial.
Defined.

Lemma ensureFileDoesntExist_removes_run :
  files (ensureFileDoesntExist "menu.db" None disk).2 !! "menu.db" = None.
Proof.
  pose proof (ensureFileDoesntExist_removes "menu.db" None disk) as H.
  cbv zeta in H. destruct H as (_ & Hgone & _). apply Hgone. vm_compute. reflexivity.
Defined.

Lemma persistNewState_appends_run :
  default "" (files (persistNewState durable new_docs AppendOk disk).2 !! "menu.db")
  = default "" (files disk !! "menu.db")
    +:+ file_text (map (fun doc => afterSerialization durable (serialize doc)) new_docs).
Proof.
  pose proof (persistNewState_appends serialize durable new_docs AppendOk disk) as H.
  cbv zeta in H. destruct H as [_ H].
  destruct (H eq_refl "menu.db" eq_refl) as (_ & _ & Hgrown).
  apply Hgrown. vm_compute. reflexivity.
Defined.

Lemma persistNewState_extends_log_run :
  exists content,
    files (persistNewState durable new_docs AppendOk disk).2 !! "menu.db" = Some content /\
    split LF content
      = ["=a"] ++ map (fun doc => afterSerialization durable (serialize doc)) new_docs ++ [""] /\
    fold_left (Persistence.treat_datum deserialize key_of_nonstring durable)
              (split LF content) replay_start
    = fold_left (Persistence.treat_datum deserialize key_of_nonstring durable)
        (map (fun doc => afterSerialization durable (serialize doc)) new_docs ++ [""])
        (fold_left (Persistence.treat_datum deserialize key_of_nonstring durable)
                   ["=a"] replay_start).
Proof.
  apply (persistNewState_extends_log serialize deserialize key_of_nonstring
           durable new_docs ["=a"] disk "menu.db").
  - reflexivity.
  - reflexivity.
  - vm_compute. reflexivity.
  - repeat constructor.
  - repeat constructor.
Defined.

Lemma compaction_reloads_run :
  exists content result,
    files (persistCachedDatabase durable rewrite_ok menu_db disk).2 !! "menu.db"
      = Some content /\
    treatRawData durable content = Normal result /\
    data result
      ≡ₚ filter (fun doc => string_id doc <> Some "__proto__") (Datastore.getAllData menu_db) /\
    forall field,
      treated_indexes result !! field
      = if decide (field = "_id" \/ field = "__proto__") then None
        else index_spec field <$> (Datastore.indexes menu_db !! field).
Proof.
  apply (compaction_reloads dirname serialize deserialize key_of_nonstring
           durable rewrite_ok menu_db disk "menu.db").
  - reflexivity.
  - reflexivity.
  - vm_compute. repeat constructor.
  - repeat constructor; vm_compute; eauto.
  - apply (bool_decide_unpack _). vm_compute. exact I.
  - eexists. reflexivity.
  - discriminate.
  - vm_compute. reflexivity.
Defined.

Lemma failed_compaction_keeps_datafile_run :
  Datastore.emitted (persistCachedDatabase durable last_flush_fails menu_db disk).1.2 = [] /\
  files (persistCachedDatabase durable last_flush_fails menu_db disk).2 !! "menu.db"
    = Some (file_text (compaction_lines serialize durable menu_db)) /\
  files (persistCachedDatabase durable write_fails menu_db disk).2 !! "menu.db" = Some "#".
Proof.
  split; [|split].
  - apply (failed_compaction_keeps_datafile dirname serialize durable last_flush_fails
             menu_db disk "menu.db").
    + reflexivity.
    + intros Hok. vm_compute in Hok. discriminate Hok.
  - destruct (failed_compaction_keeps_datafile dirname serialize durable last_flush_fails
                menu_db disk "menu.db") as (_ & _ & Hcontent).
    + reflexivity.
    + intros Hok. vm_compute in Hok. discriminate Hok.
    + destruct Hcontent as [Hold|[(_ & _ & _ & Hnew & _)|(s & e & Hw & _)]].
      * vm_compute in Hold. discriminate Hold.
      * exact Hnew.
      * discriminate Hw.
  - destruct (failed_compaction_keeps_datafile dirname serialize durable write_fails
                menu_db disk "menu.db") as (_ & _ & Hcontent).
    + reflexivity.
    + intros Hok. vm_compute in Hok. discriminate Hok.
    + destruct Hcontent as [Hold|[(Hw & _)|(s & e & Hw & _ & Hpartial & _)]].
      * vm_compute in Hold. discriminate Hold.
      * discriminate Hw.
      * injection Hw as <- _. exact Hpartial.
Defined.

Lemma crashSafeWriteFileLines_stops_at_first_failure_run :
  crashSafeWriteFileLines "menu.db" ["#a"; "=b"]
    (RewriteIO flush_ok flush_ok WriteOk (FlushIO None (Some (SysError "EIO")) None)
               None flush_ok) disk
  = (Callback (Some (FlushError (Some (SysError "EIO")) None)),
     World {["menu.db" := "=a" +:+ newline; "menu.db~" := file_text ["#a"; "=b"]]}
           [SysFlush "." "r"; SysAccess "menu.db"; SysFlush "menu.db" "r+";
            SysWriteLines "menu.db~" ["#a"; "=b"]; SysFlush "menu.db~" "r+"]) /\
  crashSafeWriteFileLines "menu.db" ["#a"; "=b"]
    (RewriteIO flush_ok flush_ok WriteOk flush_ok (Some (SysError "EXDEV")) flush_ok) disk
  = (Callback (Some (SysError "EXDEV")),
     World {["menu.db" := "=a" +:+ newline; "menu.db~" := file_text ["#a"; "=b"]]}
           [SysFlush "." "r"; SysAccess "menu.db"; SysFlush "menu.db" "r+";
            SysWriteLines "menu.db~" ["#a"; "=b"]; SysFlush "menu.db~" "r+";
            SysRename "menu.db~" "menu.db"]).
Proof.
  split.
  - pose proof (crashSafeWriteFileLines_stops_at_first_failure dirname "menu.db" ["#a"; "=b"]
                  (RewriteIO flush_ok flush_ok WriteOk (FlushIO None (Some (SysError "EIO")) None)
                             None flush_ok) disk) as H.
    cbv zeta in H. destruct H as (_ & _ & H).
    destruct (H eq_refl eq_refl) as (_ & H').
    destruct (H' eq_refl) as (Hflush & _).
    rewrite Hflush by discriminate. vm_compute. reflexivity.
  - pose proof (crashSafeWriteFileLines_stops_at_first_failure dirname "menu.db" ["#a"; "=b"]
                  (RewriteIO flush_ok flush_ok WriteOk flush_ok (Some (SysError "EXDEV"))
                             flush_ok) disk) as H.
    cbv zeta in H. destruct H as (_ & _ & H).
    destruct (H eq_refl eq_refl) as (_ & H').
    destruct (H' eq_refl) as (_ & H'').
    destruct (H'' eq_refl) as (Hrename & _).
    rewrite (Hrename (SysError "EXDEV") eq_refl). vm_compute. reflexivity.
Defined.

Lemma treatRawData_tolerates_run :
  exists result, treatRawData durable menu_log = Normal result.
Proof.
  destruct (treatRawData_tolerates deserialize key_of_nonstring durable menu_log)
    as [Hone _].
  apply Hone.
  - discriminate.
  - vm_compute. lia.
Defined.

Lemma constructor_accepts_run :
  constructor process menu_options
  = Normal (Persistence.Make false (Some "menu.db") (1 # 10) (fun s => s) (fun s => s)).
Proof.
  apply (constructor_accepts path_join uid process menu_options).
  - intros [_ (name & [= <-] & Hends)].
    apply last_char_is_tilde_spec in Hends. discriminate Hends.
  - intros [[[a Ha] _]|[_ [b Hb]]]; discriminate.
  - intros (i & j & _ & _ & Hne). apply Hne. reflexivity.
  - reflexivity.
Defined.

Lemma constructor_guarantees_run :
  ~ unpaired_hooks menu_options /\
  forall i j, (1 <= i < 30)%nat -> (j < 10)%nat -> (fun s : string => s) (uid i j) = uid i j.
Proof.
  destruct (constructor_guarantees path_join uid process menu_options
              (Persistence.Make false (Some "menu.db") (1 # 10) (fun s => s) (fun s => s)))
    as (_ & _ & _ & Hpair & Hprobe & _).
  - vm_compute. reflexivity.
  - split; [exact Hpair | exact Hprobe].
Defined.

Lemma autocompaction_keeps_one_timer_run :
  live (process_timers
          (fold_left run_call [SetInterval (Some 100%Z); SetInterval None; Stop; Stop]
                     autocompaction_start)) = ∅ /\
  (exists id,
     live (process_timers
             (fold_left run_call [SetInterval (Some 60000%Z); SetInterval (Some 100%Z)]
                        autocompaction_start)) = {[id := 5000%Z]}) /\
  (exists id,
     live (process_timers
             (fold_left run_call [SetInterval (Some 2592000000%Z)] autocompaction_start))
     = {[id := 1%Z]}).
Proof.
  split; [|split].
  - pose proof (autocompaction_keeps_one_timer
                  [SetInterval (Some 100%Z); SetInterval None; Stop; Stop]) as H.
    cbv zeta in H. destruct H as (_ & _ & Hstop).
    apply (Hstop [SetInterval (Some 100%Z); SetInterval None; Stop]). reflexivity.
  - pose proof (autocompaction_keeps_one_timer
                  [SetInterval (Some 60000%Z); SetInterval (Some 100%Z)]) as H.
    cbv zeta in H. destruct H as (_ & Hset & _).
    destruct (Hset [SetInterval (Some 60000%Z)] (Some 100%Z) eq_refl)
      as (id & period & _ & Hlive & Hsmall & _).
    exists id. rewrite Hlive, Hsmall; [reflexivity|]. cbn. lia.
  - pose proof (autocompaction_keeps_one_timer [SetInterval (Some 2592000000%Z)]) as H.
    cbv zeta in H. destruct H as (_ & Hset & _).
    destruct (Hset [] (Some 2592000000%Z) eq_refl) as (id & period & _ & Hlive & _ & Hlarge).
    exists id. rewrite Hlive, Hlarge; [reflexivity|]. cbn. lia.
Defined.

Lemma react_native_read_after_write_run :
  ReactNativeStorage.readFile "menu.db" ∅ = "".
Proof.
  pose proof (react_native_read_after_write "menu.db" "" ∅) as (Hmissing & _).
  apply Hmissing. reflexivity.
Defined.

End MoreRuns.
